(** * Tella Raycast extension: cache freshness and synchronisation engine

    A shallow embedding of [src/cache.ts], [src/api.ts] (the fetch wrapper),
    [src/utils.ts] (the constants), [src/search-transcripts.tsx] (the
    transcript delta load) and [src/browse-videos.tsx] (the video load and
    the fallback pagination), followed by the properties of the
    specification that concern them.

    Conventions of the embedding:
    - a JavaScript number that the code computes with is an integer or [NaN];
      it is a [JsNumber], and the comparisons with [NaN] are false;
    - a timestamp written by [new Date().toISOString()] is represented by the
      epoch milliseconds it denotes ([Z]); [Date.now()] is an explicit
      argument [now];
    - a JavaScript object used as a map from video ids is a [gmap string _],
      a [Set] of ids is a [gset string]; where the code iterates over the
      keys or entries of an object the enumeration order is an explicit list;
    - the Raycast [LocalStorage] is an explicit store passed in and out;
    - the remote API is an explicit oracle passed to the functions that call
      it, and a [throw] is an explicit [Throw] outcome. *)

From Equations Require Import Equations.
From stdpp Require Import gmap strings list fin_maps pretty.
From Stdlib Require Import ZArith Ascii.

Local Open Scope string_scope.
Local Open Scope list_scope.
Local Open Scope Z_scope.

(** ** JavaScript values used by the code *)

Module Js.

(** A number: an integer value or [NaN]. *)
Inductive JsNumber : Type :=
| NaN
| Int (z : Z).

(** [a < b], false when either side is [NaN]. *)
Definition lt (a b : JsNumber) : bool :=
  match a, b with
  | Int x, Int y => x <? y
  | _, _ => false
  end.

(** [a >= b], false when either side is [NaN]. *)
Definition ge (a b : JsNumber) : bool :=
  match a, b with
  | Int x, Int y => y <=? x
  | _, _ => false
  end.

(** [a === 0] ([-0 === 0] holds, and [-0] is [Int 0] here). *)
Definition is_zero (a : JsNumber) : bool :=
  match a with
  | Int x => x =? 0
  | NaN => false
  end.

(** [a * k] for an integer constant [k]. *)
Definition mul (a : JsNumber) (k : Z) : JsNumber :=
  match a with
  | Int x => Int (x * k)
  | NaN => NaN
  end.

(** The white space that [parseInt] skips (the ASCII part of it). *)
Definition is_white_space (c : ascii) : bool :=
  let n := nat_of_ascii c in
  (Nat.eqb n 9 || Nat.eqb n 10 || Nat.eqb n 11 || Nat.eqb n 12
   || Nat.eqb n 13 || Nat.eqb n 32)%bool.

Fixpoint skip_white_space (s : string) : string :=
  match s with
  | String c rest => if is_white_space c then skip_white_space rest else s
  | EmptyString => s
  end.

Definition digit_value (c : ascii) : option Z :=
  let n := nat_of_ascii c in
  if (Nat.leb 48 n && Nat.leb n 57)%bool then Some (Z.of_nat n - 48) else None.

(** The value of the longest prefix of decimal digits of [s], read after
    the digits already accumulated in [acc] ([None]: no digit yet). *)
Fixpoint read_digits (s : string) (acc : option Z) : option Z :=
  match s with
  | String c rest =>
      match digit_value c with
      | Some d => read_digits rest (Some (default 0 acc * 10 + d))
      | None => acc
      end
  | EmptyString => acc
  end.

(** [parseInt(s, 10)]: leading white space, an optional sign, the longest
    run of decimal digits; [NaN] when there is no digit. *)
Definition parseInt (s : string) : JsNumber :=
  let s := skip_white_space s in
  let '(negative, s) :=
    match s with
    | String "-" rest => (true, rest)
    | String "+" rest => (false, rest)
    | _ => (false, s)
    end in
  match read_digits s None with
  | Some n => Int (if negative : bool then - n else n)
  | None => NaN
  end.

(** [s || d] on an optional string: [undefined] and the empty string are
    falsy. *)
Definition or_default (s : option string) (d : string) : string :=
  match s with
  | Some (String c rest) => String c rest
  | Some EmptyString | None => d
  end.

End Js.

(** ** [src/utils.ts]: the constants *)

Module Utils.

Definition CACHE_FRESH_THRESHOLD_MS : Z := 5 * 60 * 1000.
Definition GRID_INITIAL_LOAD : nat := 24.
Definition FETCH_CONCURRENCY : nat := 5.

End Utils.

(** ** [src/types.ts]: the records the engine handles *)

Inductive TranscriptStatus : Type :=
| ready
| processing
| failed.

#[export] Instance TranscriptStatus_eq_dec : EqDecision TranscriptStatus.
Proof. solve_decision. Defined.

(** A sentence of a transcript; the times are carried through unchanged. *)
Record TranscriptSentence : Type := {
  sentence_text : string;
  startSeconds : Z;
  endSeconds : Z
}.

Module Transcript.
Record t : Type := {
  status : TranscriptStatus;
  language : string;
  text : string;
  sentences : list TranscriptSentence
}.
End Transcript.

(** A video; the fields the engine does not read are left out. *)
Module Video.
Record t : Type := {
  id : string;
  name : string;
  transcript : option Transcript.t
}.
End Video.

(** The ids of a list of videos: [videos.map((v) => v.id)]. *)
Definition ids (videos : list Video.t) : list string := Video.id <$> videos.

(** ** The ambient environment *)

(** What [getPreferenceValues()] gives: it throws, or it returns the
    preferences, of which [cacheDuration] may be absent. *)
Inductive PreferenceValues : Type :=
| PreferencesThrow
| Preferences (cacheDuration : option string).

(** The outcome of a call that may throw. *)
Inductive Result (A : Type) : Type :=
| Ok (a : A)
| Throw (message : string).
Arguments Ok {A} a.
Arguments Throw {A} message.

(** ** [src/cache.ts] *)

Module VideoCache.
Record t : Type := {
  videos : list Video.t;
  fetchedAt : Z;
  playlistId : option string
}.
End VideoCache.

Module CachedTranscript.
Record t : Type := {
  status : TranscriptStatus;
  text : string;
  videoName : string;
  sentences : option (list TranscriptSentence)
}.
End CachedTranscript.

Module TranscriptCache.
Record t : Type := {
  transcripts : gmap string CachedTranscript.t;
  fetchedAt : Z
}.
End TranscriptCache.

(** The text kept under a key of the local storage, represented by the
    document it is the JSON text of: [JSON.stringify] is the constructor,
    [JSON.parse] the match. [OtherText] is any other text: the empty string,
    a truncated or corrupt entry, the value of an unrelated key. *)
Inductive StoredText : Type :=
| VideoCacheJson (c : VideoCache.t)
| TranscriptCacheJson (c : TranscriptCache.t)
| OtherText (s : string).

(** The Raycast [LocalStorage]. When [available] is false every operation
    on it rejects. *)
Module LocalStorage.
Record t : Type := {
  items : gmap string StoredText;
  available : bool
}.

Definition getItem (key : string) (store : t) : Result (option StoredText) :=
  if available store then Ok (items store !! key)
  else Throw "LocalStorage unavailable".

Definition setItem (key : string) (value : StoredText) (store : t) : Result t :=
  if available store
  then Ok {| items := <[key := value]> (items store); available := true |}
  else Throw "LocalStorage unavailable".

Definition removeItem (key : string) (store : t) : Result t :=
  if available store
  then Ok {| items := delete key (items store); available := true |}
  else Throw "LocalStorage unavailable".
End LocalStorage.

Module Cache.

Definition CACHE_KEY_PREFIX : string := "tella-videos-cache".
Definition TRANSCRIPT_CACHE_KEY : string := "tella-transcripts-cache".

Definition getCacheKey (playlistId : option string) : string :=
  CACHE_KEY_PREFIX +:+ "-" +:+ Js.or_default playlistId "all".

Definition getCacheDuration (prefs : PreferenceValues) : Js.JsNumber :=
  match prefs with
  | Preferences cacheDuration => Js.parseInt (Js.or_default cacheDuration "30")
  | PreferencesThrow => Js.Int 30
  end.

(** [if (!cached) return null; return JSON.parse(cached) as VideoCache],
    inside [try { } catch { return null }]. A text that is not the JSON of a
    video cache reads as a miss: the program writes nothing else under a
    video cache key. *)
Definition getVideoCache (playlistId : option string) (store : LocalStorage.t)
  : option VideoCache.t :=
  match LocalStorage.getItem (getCacheKey playlistId) store with
  | Ok (Some (VideoCacheJson c)) => Some c
  | Ok (Some _) | Ok None | Throw _ => None
  end.

(** [playlistId || null] *)
Definition playlistId_or_null (playlistId : option string) : option string :=
  match playlistId with
  | Some (String c rest) => Some (String c rest)
  | Some EmptyString | None => None
  end.

Definition setVideoCache (videos : list Video.t) (playlistId : option string)
    (now : Z) (store : LocalStorage.t) : LocalStorage.t :=
  let key := getCacheKey playlistId in
  let cache := {| VideoCache.videos := videos;
                  VideoCache.fetchedAt := now;
                  VideoCache.playlistId := playlistId_or_null playlistId |} in
  match LocalStorage.setItem key (VideoCacheJson cache) store with
  | Ok store' => store'
  | Throw _ => store
  end.

(** [Date.now() - new Date(cache.fetchedAt).getTime()] *)
Definition getCacheAge (now : Z) (cache : VideoCache.t) : Z :=
  now - VideoCache.fetchedAt cache.

Definition isCacheFresh (prefs : PreferenceValues) (now : Z)
    (cache : VideoCache.t) : bool :=
  let duration := getCacheDuration prefs in
  if Js.is_zero duration then false
  else
    let age := now - VideoCache.fetchedAt cache in
    age <? Utils.CACHE_FRESH_THRESHOLD_MS.

Definition isCacheStale (prefs : PreferenceValues) (now : Z)
    (cache : VideoCache.t) : bool :=
  let duration := getCacheDuration prefs in
  if Js.is_zero duration then false
  else
    let age := now - VideoCache.fetchedAt cache in
    let maxAge := Js.mul (Js.mul duration 60) 1000 in
    (Utils.CACHE_FRESH_THRESHOLD_MS <=? age) && Js.lt (Js.Int age) maxAge.

Definition isCacheExpired (prefs : PreferenceValues) (now : Z)
    (cache : VideoCache.t) : bool :=
  let duration := getCacheDuration prefs in
  if Js.is_zero duration then false
  else
    let age := now - VideoCache.fetchedAt cache in
    let maxAge := Js.mul (Js.mul duration 60) 1000 in
    Js.ge (Js.Int age) maxAge.

Definition getTranscriptCache (store : LocalStorage.t)
  : option TranscriptCache.t :=
  match LocalStorage.getItem TRANSCRIPT_CACHE_KEY store with
  | Ok (Some (TranscriptCacheJson c)) => Some c
  | Ok (Some _) | Ok None | Throw _ => None
  end.

Definition setTranscriptCache (cache : TranscriptCache.t)
    (store : LocalStorage.t) : LocalStorage.t :=
  match LocalStorage.setItem TRANSCRIPT_CACHE_KEY (TranscriptCacheJson cache) store with
  | Ok store' => store'
  | Throw _ => store
  end.

(** [{ ...a, ...b }]: the properties of [a], then those of [b] over them. *)
Definition spread {V : Type} (a b : gmap string V) : gmap string V := b ∪ a.

(** [existing?.transcripts || {}] *)
Definition transcripts_or_empty (existing : option TranscriptCache.t)
  : gmap string CachedTranscript.t :=
  match existing with
  | Some c => TranscriptCache.transcripts c
  | None => ∅
  end.

Definition addTranscriptsToCache (newTranscripts : gmap string CachedTranscript.t)
    (now : Z) (store : LocalStorage.t) : LocalStorage.t :=
  let existing := getTranscriptCache store in
  let updated := {| TranscriptCache.transcripts :=
                      spread (transcripts_or_empty existing) newTranscripts;
                    TranscriptCache.fetchedAt := now |} in
  setTranscriptCache updated store.

Definition clearTranscriptCache (store : LocalStorage.t) : LocalStorage.t :=
  match LocalStorage.removeItem TRANSCRIPT_CACHE_KEY store with
  | Ok store' => store'
  | Throw _ => store
  end.

End Cache.

(** ** [src/api.ts]: the fetch wrapper *)

Module Api.

(** The [Retry-After] header of a response, by what [Number(...)] makes of
    it: absent, a decimal number of seconds, or a text that is not a number
    (an HTTP date), for which [Number] gives [NaN]. *)
Inductive RetryAfterHeader : Type :=
| HeaderAbsent
| HeaderSeconds (seconds : Z)
| HeaderNotNumeric.

Record Response (T : Type) : Type := {
  status : Z;
  statusText : string;
  retryAfter : RetryAfterHeader;
  body : string;              (* res.text() *)
  json : option T             (* res.json(); None when it rejects *)
}.
Arguments status {T} _.
Arguments statusText {T} _.
Arguments retryAfter {T} _.
Arguments body {T} _.
Arguments json {T} _.

(** [res.ok]: the status is in the range 200-299. *)
Definition ok {T} (res : Response T) : bool :=
  (200 <=? status res) && (status res <=? 299).

(** What [fetch] does on one request: it rejects (no connection) or it
    resolves to a response. *)
Inductive FetchOutcome (T : Type) : Type :=
| Rejects (message : string)
| Resolves (res : Response T).
Arguments Rejects {T} message.
Arguments Resolves {T} res.

(** The network as the wrapper sees it during one call: the outcome of the
    request it issues at each attempt. *)
Definition Network (T : Type) : Type := nat → FetchOutcome T.

(** What the wrapper does that can be observed from outside. *)
Inductive Effect : Type :=
| Request (attempt : nat)
| Wait (ms : Z).

#[export] Instance Effect_eq_dec : EqDecision Effect.
Proof. solve_decision. Defined.

Definition getAuthHeaders (tellaApiKey : string) : Result string :=
  match tellaApiKey with
  | EmptyString =>
      Throw "Tella API key is required. Set it in extension preferences."
  | _ => Ok ("Bearer " +:+ tellaApiKey)
  end.

(** [Number(res.headers.get("Retry-After") || 0)] *)
Definition retryAfterSeconds (h : RetryAfterHeader) : Js.JsNumber :=
  match h with
  | HeaderAbsent => Js.Int 0
  | HeaderSeconds n => Js.Int n
  | HeaderNotNumeric => Js.NaN
  end.

(** [retryAfter ? retryAfter * 1000 : 500 * Math.pow(2, attempt)]: zero and
    [NaN] are falsy. *)
Definition waitMs (h : RetryAfterHeader) (attempt : nat) : Z :=
  match retryAfterSeconds h with
  | Js.Int n => if n =? 0 then 500 * 2 ^ Z.of_nat attempt else n * 1000
  | Js.NaN => 500 * 2 ^ Z.of_nat attempt
  end.

(** The end of [tellaFetch], once no retry is made on [res]. *)
Definition finish {T} (res : Response T) : Result T :=
  if ok res then
    match json res with
    | Some value => Ok value
    | None => Throw "invalid json response body"   (* the runtime's text *)
    end
  else Throw (pretty (status res) +:+ " " +:+ statusText res +:+ ": "
              +:+ body res).

Equations? tellaFetch {T : Type} (tellaApiKey : string) (net : Network T)
    (attempt : nat) : list Effect * Result T by wf (3 - attempt)%nat lt :=
  tellaFetch tellaApiKey net attempt with getAuthHeaders tellaApiKey => {
    | Throw message => ([], Throw message)
    | Ok _ with net attempt => {
      | Rejects message => ([Request attempt], Throw message)
      | Resolves res with decide (status res = 429) => {
        | right _ => ([Request attempt], finish res)
        | left _ with decide (attempt < 3)%nat => {
          | left _ =>
              let '(effects, result) :=
                tellaFetch tellaApiKey net (S attempt) in
              (Request attempt :: Wait (waitMs (retryAfter res) attempt)
                 :: effects, result)
          | right _ =>
              ([Request attempt; Wait (waitMs (retryAfter res) attempt)],
               finish res) } } } }.
Proof. lia. Qed.

(** The number of requests in a trace of effects. *)
Definition is_request (e : Effect) : bool :=
  match e with
  | Request _ => true
  | Wait _ => false
  end.

Definition requests (effects : list Effect) : nat :=
  List.length (List.filter is_request effects).

(** The answer to the request of attempt [j] is a 429. *)
Definition answers429 {T} (net : Network T) (j : nat) : Prop :=
  ∃ res, net j = Resolves res ∧ status res = 429.

(** The [Retry-After] header of the answer to attempt [j]. *)
Definition headerAt {T} (net : Network T) (j : nat) : RetryAfterHeader :=
  match net j with
  | Resolves res => retryAfter res
  | Rejects _ => HeaderAbsent
  end.

(** What the caller gets from the answer to attempt [j] when the wrapper
    stops there. *)
Definition outcomeAt {T} (net : Network T) (j : nat) : Result T :=
  match net j with
  | Resolves res => finish res
  | Rejects message => Throw message
  end.

(** The effects of [k] attempts from attempt [a] on, each followed by its
    wait. *)
Definition retriedEffects {T} (net : Network T) (a k : nat) : list Effect :=
  flat_map (λ j, [Request j; Wait (waitMs (headerAt net j) j)]) (seq a k).

End Api.

(** ** The remote catalog, as the commands see it through [src/api.ts] *)

Module Remote.

Record ListVideosParams : Type := {
  cursor : option string;
  limit : option Z;
  playlistId : option string
}.

Record Pagination : Type := {
  nextCursor : option string;
  hasMore : bool
}.

Record ListVideosResponse : Type := {
  videos : list Video.t;
  pagination : Pagination
}.

Record GetVideoResponse : Type := {
  video : Video.t
}.

(** The two calls the engine makes; each resolves or throws (after the
    retries of the fetch wrapper). *)
Record t : Type := {
  listVideos : ListVideosParams → Result ListVideosResponse;
  getVideo : string → Result GetVideoResponse
}.

(** The loop that both commands use to fetch every page:
    [while (hasMore) { response = await listVideos({ playlistId, cursor,
    limit: 50 }); allVideos.push(...response.videos); cursor = ...;
    hasMore = ... }]. [None]: the fuel ran out before the server said that
    there is no more. *)
Fixpoint listAllVideos (fuel : nat) (remote : t) (playlistId : option string)
    (cursor : option string) (allVideos : list Video.t)
  : option (Result (list Video.t)) :=
  match fuel with
  | O => None
  | S fuel' =>
      match listVideos remote {| cursor := cursor; limit := Some 50;
                                 playlistId := playlistId |} with
      | Throw message => Some (Throw message)
      | Ok response =>
          let allVideos := allVideos ++ videos response in
          if hasMore (pagination response)
          then listAllVideos fuel' remote playlistId
                 (nextCursor (pagination response)) allVideos
          else Some (Ok allVideos)
      end
  end.

End Remote.

(** ** [src/search-transcripts.tsx] *)

Module SearchTranscripts.

Record VideoWithTranscript : Type := {
  video : Video.t;
  transcript : option Transcript.t
}.

(** The body of [batch.map(async (video) => { try { ... } catch { ... } })]
    for one video: the result it resolves to, and the entry it stores in
    [newTranscripts], if any. *)
Definition fetchOne (remote : Remote.t) (video : Video.t)
  : VideoWithTranscript * option (string * CachedTranscript.t) :=
  match Remote.getVideo remote (Video.id video) with
  | Ok response =>
      let transcript := Video.transcript (Remote.video response) in
      ({| video := video; transcript := transcript |},
       match transcript with
       | Some t =>
           if decide (Transcript.status t = ready)
           then Some (Video.id video,
                      {| CachedTranscript.status := Transcript.status t;
                         CachedTranscript.text := Transcript.text t;
                         CachedTranscript.videoName := Video.name video;
                         CachedTranscript.sentences :=
                           Some (Transcript.sentences t) |})
           else None
       | None => None
       end)
  | Throw _ => ({| video := video; transcript := None |}, None)
  end.

(** [newTranscripts[k] = v] for the entries stored by one batch. *)
Definition store_entries (entries : list (option (string * CachedTranscript.t)))
    (newTranscripts : gmap string CachedTranscript.t)
  : gmap string CachedTranscript.t :=
  foldl (λ acc entry,
           match entry with
           | Some (k, v) => <[k := v]> acc
           | None => acc
           end) newTranscripts entries.

(** [videos.slice(i, i + concurrency)] *)
Definition slice {A} (i j : nat) (l : list A) : list A :=
  take (j - i) (drop i l).

Record FetchState : Type := {
  results : list VideoWithTranscript;
  newTranscripts : gmap string CachedTranscript.t;
  batches : list (list string);       (* the ids requested, batch by batch *)
  progress : list (nat * nat)         (* the calls of onProgress *)
}.

(** The loop of [fetchTranscripts], from index [i]. Every promise of a batch
    is settled before the loop goes on ([await Promise.allSettled]); the
    entries of a batch are stored in the order of the batch. *)
Fixpoint fetchTranscripts_loop (fuel : nat) (remote : Remote.t)
    (videos : list Video.t) (concurrency : nat) (i : nat) (st : FetchState)
  : option FetchState :=
  if decide (i < length videos)%nat then
    match fuel with
    | O => None
    | S fuel' =>
        let batch := slice i (i + concurrency) videos in
        let batchResults := fetchOne remote <$> batch in
        fetchTranscripts_loop fuel' remote videos concurrency
          (i + concurrency)
          {| results := results st ++ batchResults.*1;
             newTranscripts :=
               store_entries (batchResults.*2) (newTranscripts st);
             batches := batches st ++ [ids batch];
             progress := progress st ++
               [(Nat.min (i + concurrency) (length videos), length videos)] |}
    end
  else Some st.

Definition fetchTranscripts (fuel : nat) (remote : Remote.t)
    (videos : list Video.t) (concurrency : nat) : option FetchState :=
  fetchTranscripts_loop fuel remote videos concurrency 0
    {| results := []; newTranscripts := ∅; batches := []; progress := [] |}.

Record State : Type := {
  videosWithTranscripts : list VideoWithTranscript;
  isLoading : bool;
  cachedCount : nat;
  newCount : nat;
  error : option string
}.

Definition cachedToTranscript (cached : CachedTranscript.t) : Transcript.t :=
  {| Transcript.status := CachedTranscript.status cached;
     Transcript.language := "en";
     Transcript.text := CachedTranscript.text cached;
     Transcript.sentences := default [] (CachedTranscript.sentences cached) |}.

(** [Object.entries(o)] and [Object.keys(o)], in the order the map gives. *)
Definition objectEntries {V} (o : gmap string V) : list (string * V) :=
  map_to_list o.
Definition objectKeys {V} (o : gmap string V) : list string :=
  (map_to_list o).*1.

(** The loop that fills [validTranscripts]:
    [for (const [videoId, transcript] of entries)
       if (videoIds.has(videoId)) validTranscripts[videoId] = transcript]. *)
Definition pruneEntries (videoIds : gset string)
    (entries : list (string * CachedTranscript.t))
  : gmap string CachedTranscript.t :=
  foldl (λ validTranscripts entry,
           if decide (entry.1 ∈ videoIds)
           then <[entry.1 := entry.2]> validTranscripts
           else validTranscripts) ∅ entries.

(** [transcriptCache.transcripts = validTranscripts]: the object read from
    the storage is changed in memory; nothing is written back. *)
Definition pruneTranscripts (videoIds : gset string)
    (transcriptCache : TranscriptCache.t) : TranscriptCache.t :=
  {| TranscriptCache.transcripts :=
       pruneEntries videoIds
         (objectEntries (TranscriptCache.transcripts transcriptCache));
     TranscriptCache.fetchedAt := TranscriptCache.fetchedAt transcriptCache |}.

(** [new Set(keys)] *)
Definition newSet (keys : list string) : gset string := list_to_set keys.

(** [videos.filter((v) => !cachedIds.has(v.id))] *)
Definition videosToFetch (videos : list Video.t) (cachedIds : gset string)
  : list Video.t :=
  filter (λ v, Video.id v ∉ cachedIds) videos.

(** One element of [results]: the cached transcript of the video when it is
    there and ready. *)
Definition resultFromCache (transcriptCache : option TranscriptCache.t)
    (video : Video.t) : VideoWithTranscript :=
  match Cache.transcripts_or_empty transcriptCache !! Video.id video with
  | Some cached =>
      if decide (CachedTranscript.status cached = ready)
      then {| video := video; transcript := Some (cachedToTranscript cached) |}
      else {| video := video; transcript := None |}
  | None => {| video := video; transcript := None |}
  end.

(** [new Map(entries)]: a later entry replaces an earlier one. *)
Definition newMap {V} (entries : list (string * V)) : gmap string V :=
  foldl (λ m entry, <[entry.1 := entry.2]> m) ∅ entries.

(** [loadTranscripts(forceRefresh)]: the state of the command and the
    storage after it. [None]: the fuel ran out. *)
Definition loadTranscripts (fuel : nat) (remote : Remote.t)
    (forceRefresh : bool) (now : Z) (st : State) (store : LocalStorage.t)
  : option (State * LocalStorage.t) :=
  let fetched_videos :=
    match Cache.getVideoCache None store with
    | Some videoCache =>
        match VideoCache.videos videoCache with
        | _ :: _ => Some (Ok (VideoCache.videos videoCache))
        | [] => Remote.listAllVideos fuel remote None None []
        end
    | None => Remote.listAllVideos fuel remote None None []
    end in
  match fetched_videos with
  | None => None
  | Some (Throw message) =>
      Some ({| videosWithTranscripts := videosWithTranscripts st;
               isLoading := false;
               cachedCount := cachedCount st;
               newCount := newCount st;
               error := Some message |}, store)
  | Some (Ok []) =>
      Some ({| videosWithTranscripts := videosWithTranscripts st;
               isLoading := false;
               cachedCount := cachedCount st;
               newCount := newCount st;
               error := None |}, store)
  | Some (Ok videos) =>
      let videoIds := newSet (ids videos) in
      let transcriptCache := Cache.getTranscriptCache store in
      let '(store, transcriptCache) :=
        if forceRefresh then (Cache.clearTranscriptCache store, None)
        else (store, transcriptCache) in
      let transcriptCache := pruneTranscripts videoIds <$> transcriptCache in
      let cachedIds :=
        newSet (objectKeys (Cache.transcripts_or_empty transcriptCache)) in
      let toFetch := videosToFetch videos cachedIds in
      let results := resultFromCache transcriptCache <$> videos in
      match toFetch with
      | [] =>
          Some ({| videosWithTranscripts := results;
                   isLoading := false;
                   cachedCount := size cachedIds;
                   newCount := 0;
                   error := None |}, store)
      | _ =>
          match fetchTranscripts fuel remote toFetch Utils.FETCH_CONCURRENCY with
          | None => None
          | Some fetched =>
              let fetchedMap :=
                newMap ((λ r, (Video.id (video r), r)) <$> SearchTranscripts.results fetched) in
              let mergedResults :=
                (λ r, default r (fetchedMap !! Video.id (video r))) <$> results in
              let store :=
                if (0 <? size (newTranscripts fetched))%nat
                then Cache.addTranscriptsToCache (newTranscripts fetched) now store
                else store in
              Some ({| videosWithTranscripts := mergedResults;
                       isLoading := false;
                       cachedCount := size cachedIds;
                       newCount := List.length toFetch;
                       error := None |}, store)
          end
      end
  end.

(** The ids under which a transcript is kept in the storage. *)
Definition persistedIds (store : LocalStorage.t) : gset string :=
  dom (Cache.transcripts_or_empty (Cache.getTranscriptCache store)).

(** The server holds a ready transcript for the video [k]. *)
Definition readyOnServer (remote : Remote.t) (k : string) : Prop :=
  ∃ response t,
    Remote.getVideo remote k = Ok response
    ∧ Video.transcript (Remote.video response) = Some t
    ∧ Transcript.status t = ready.

End SearchTranscripts.

(** ** [src/browse-videos.tsx] *)

Module BrowseVideos.

Record State : Type := {
  videos : list Video.t;
  isLoading : bool;
  isSyncing : bool;
  lastSynced : option Z;
  usePagination : bool;           (* fallback mode *)
  paginatedVideos : list Video.t
}.

Definition setVideos (vs : list Video.t) (st : State) : State :=
  {| videos := vs; isLoading := isLoading st; isSyncing := isSyncing st;
     lastSynced := lastSynced st; usePagination := usePagination st;
     paginatedVideos := paginatedVideos st |}.
Definition setIsLoading (b : bool) (st : State) : State :=
  {| videos := videos st; isLoading := b; isSyncing := isSyncing st;
     lastSynced := lastSynced st; usePagination := usePagination st;
     paginatedVideos := paginatedVideos st |}.
Definition setIsSyncing (b : bool) (st : State) : State :=
  {| videos := videos st; isLoading := isLoading st; isSyncing := b;
     lastSynced := lastSynced st; usePagination := usePagination st;
     paginatedVideos := paginatedVideos st |}.
Definition setLastSynced (t : Z) (st : State) : State :=
  {| videos := videos st; isLoading := isLoading st; isSyncing := isSyncing st;
     lastSynced := Some t; usePagination := usePagination st;
     paginatedVideos := paginatedVideos st |}.
Definition setUsePagination (b : bool) (st : State) : State :=
  {| videos := videos st; isLoading := isLoading st; isSyncing := isSyncing st;
     lastSynced := lastSynced st; usePagination := b;
     paginatedVideos := paginatedVideos st |}.

(** [refreshAllVideos(playlistId)]: every page, then the cache and the time
    of the last synchronisation; a failed page throws before either. *)
Definition refreshAllVideos (fuel : nat) (remote : Remote.t)
    (playlistId : option string) (now : Z) (st : State)
    (store : LocalStorage.t)
  : option (Result (list Video.t) * State * LocalStorage.t) :=
  match Remote.listAllVideos fuel remote playlistId None [] with
  | None => None
  | Some (Throw message) => Some (Throw message, st, store)
  | Some (Ok allVideos) =>
      Some (Ok allVideos, setLastSynced now st,
            Cache.setVideoCache allVideos playlistId now store)
  end.

(** The background refresh of a cache that is expired or stale:
    [setIsSyncing(true); try { setVideos(await refreshAllVideos(...)) }
     catch { } finally { setIsSyncing(false) }]. *)
Definition backgroundRefresh (fuel : nat) (remote : Remote.t)
    (playlistId : option string) (now : Z) (st : State)
    (store : LocalStorage.t) : option (Result (State * LocalStorage.t)) :=
  match refreshAllVideos fuel remote playlistId now (setIsSyncing true st) store with
  | None => None
  | Some (Ok refreshedVideos, st, store) =>
      Some (Ok (setIsSyncing false (setVideos refreshedVideos st), store))
  | Some (Throw _, st, store) => Some (Ok (setIsSyncing false st, store))
  end.

(** The body of the outer [try] of [loadVideos]. *)
Definition loadVideos_try (fuel : nat) (prefs : PreferenceValues)
    (remote : Remote.t) (playlistId : option string) (now : Z) (st : State)
    (store : LocalStorage.t) : option (Result (State * LocalStorage.t)) :=
  match Cache.getVideoCache playlistId store with
  | Some cache =>
      let st := setIsLoading false
                  (setLastSynced (VideoCache.fetchedAt cache)
                     (setVideos (VideoCache.videos cache) st)) in
      if Cache.isCacheExpired prefs now cache
      then backgroundRefresh fuel remote playlistId now st store
      else if Cache.isCacheStale prefs now cache
      then backgroundRefresh fuel remote playlistId now st store
      else Some (Ok (st, store))
  | None =>
      match refreshAllVideos fuel remote playlistId now (setIsLoading true st) store with
      | None => None
      | Some (Ok allVideos, st, store) =>
          Some (Ok (setIsLoading false (setVideos allVideos st), store))
      | Some (Throw _, st, store) =>
          Some (Ok (setIsLoading false
                      (setIsLoading false (setUsePagination true st)), store))
      end
  end.

(** [loadVideos()]: what the outer [try] does, or, when it throws, the
    fallback of the outer [catch]. Nothing is thrown to the caller. *)
Definition loadVideos (fuel : nat) (prefs : PreferenceValues)
    (remote : Remote.t) (playlistId : option string) (now : Z) (st : State)
    (store : LocalStorage.t) : option (Result (State * LocalStorage.t)) :=
  match loadVideos_try fuel prefs remote playlistId now st store with
  | None => None
  | Some (Ok after) => Some (Ok after)
  | Some (Throw _) =>
      Some (Ok (setIsLoading false (setUsePagination true st), store))
  end.

(** The update of the accumulated list by one page of the fallback mode:
    [if (!options.cursor) return newVideos;
     existingIds = new Set(prev.map((v) => v.id));
     return [...prev, ...newVideos.filter((v) => !existingIds.has(v.id))]]. *)
Definition accumulate (cursor : option string) (newVideos prev : list Video.t)
  : list Video.t :=
  match cursor with
  | Some (String _ _) =>
      let existingIds := SearchTranscripts.newSet (ids prev) in
      prev ++ filter (λ v, Video.id v ∉ existingIds) newVideos
  | Some EmptyString | None => newVideos
  end.



End BrowseVideos.

(** ** Sample data, for the concrete runs below *)

Module Samples.

Definition v1 : Video.t :=
  {| Video.id := "v1"; Video.name := "first"; Video.transcript := None |}.
Definition v2 : Video.t :=
  {| Video.id := "v2"; Video.name := "second"; Video.transcript := None |}.

Definition emptyStorage : LocalStorage.t :=
  {| LocalStorage.items := ∅; LocalStorage.available := true |}.

Definition readyTranscript : Transcript.t :=
  {| Transcript.status := ready; Transcript.language := "en";
     Transcript.text := "hello"; Transcript.sentences := [] |}.

Definition oldTranscript : CachedTranscript.t :=
  {| CachedTranscript.status := ready; CachedTranscript.text := "old";
     CachedTranscript.videoName := "second";
     CachedTranscript.sentences := None |}.

(** A catalog that holds the single video ["v1"], with a ready transcript. *)
Definition catalog : Remote.t :=
  {| Remote.listVideos := λ _,
       Ok {| Remote.videos := [v1];
             Remote.pagination := {| Remote.nextCursor := None;
                                     Remote.hasMore := false |} |};
     Remote.getVideo := λ k,
       if decide (k = "v1")
       then Ok {| Remote.video :=
                    {| Video.id := "v1"; Video.name := "first";
                       Video.transcript := Some readyTranscript |} |}
       else Throw "404 Not Found: " |}.

(** Five videos, and a catalog in which every one of them has a ready
    transcript, except that the request for the third fails. *)
Definition fiveVideos : list Video.t :=
  (λ k, {| Video.id := k; Video.name := k; Video.transcript := None |})
    <$> ["a1"; "a2"; "a3"; "a4"; "a5"].

Definition catalogFailingThird : Remote.t :=
  {| Remote.listVideos := λ _,
       Ok {| Remote.videos := fiveVideos;
             Remote.pagination := {| Remote.nextCursor := None;
                                     Remote.hasMore := false |} |};
     Remote.getVideo := λ k,
       if decide (k = "a3") then Throw "500 Internal Server Error: "
       else Ok {| Remote.video :=
                    {| Video.id := k; Video.name := k;
                       Video.transcript := Some readyTranscript |} |} |}.

(** A server that answers every request with 429 and no [Retry-After]. *)
Definition always429 : Api.Network unit :=
  λ _, Api.Resolves {| Api.status := 429;
                       Api.statusText := "Too Many Requests";
                       Api.retryAfter := Api.HeaderAbsent;
                       Api.body := "slow down";
                       Api.json := None |}.

(** A server that answers 429 with [Retry-After: 2] once, then succeeds. *)
Definition busyOnce : Api.Network unit :=
  λ attempt,
    match attempt with
    | O => Api.Resolves {| Api.status := 429;
                           Api.statusText := "Too Many Requests";
                           Api.retryAfter := Api.HeaderSeconds 2;
                           Api.body := "";
                           Api.json := None |}
    | S _ => Api.Resolves {| Api.status := 200;
                             Api.statusText := "OK";
                             Api.retryAfter := Api.HeaderAbsent;
                             Api.body := "{}";
                             Api.json := Some tt |}
    end.

(** A catalog that cannot be reached. *)
Definition unreachable : Remote.t :=
  {| Remote.listVideos := λ _, Throw "fetch failed";
     Remote.getVideo := λ _, Throw "fetch failed" |}.

(** A storage written when the collection was ["v1"], ["v2"], read now that
    ["v2"] is deleted: the video cache holds ["v1"], the transcript cache
    still holds the transcript of ["v2"]. *)
Definition storageAfterDeletion : LocalStorage.t :=
  Cache.setTranscriptCache
    {| TranscriptCache.transcripts := {[ "v2" := oldTranscript ]};
       TranscriptCache.fetchedAt := 5 |}
    (Cache.setVideoCache [v1] None 10 emptyStorage).

Definition initialSearchState : SearchTranscripts.State :=
  {| SearchTranscripts.videosWithTranscripts := [];
     SearchTranscripts.isLoading := true;
     SearchTranscripts.cachedCount := 0%nat;
     SearchTranscripts.newCount := 0%nat;
     SearchTranscripts.error := None |}.



Definition initialBrowseState : BrowseVideos.State :=
  {| BrowseVideos.videos := [];
     BrowseVideos.isLoading := true;
     BrowseVideos.isSyncing := false;
     BrowseVideos.lastSynced := None;
     BrowseVideos.usePagination := false;
     BrowseVideos.paginatedVideos := [] |}.

End Samples.

(** * More of the code *)

(** ** [src/cache.ts]: the age shown to the user *)

Module RelativeTime.

(** [formatRelativeTime(timestamp)], with [Date.now()] as [now] and the
    timestamp as the epoch milliseconds it denotes. [Math.floor] of a
    quotient of integers is the floor division of [Z] (exact for the ages a
    clock can give); [`${n}`] is the decimal text of the integer. *)
Definition formatRelativeTime (now timestamp : Z) : string :=
  let age := now - timestamp in
  let minutes := age / (1000 * 60) in
  let hours := minutes / 60 in
  let days := hours / 24 in
  if minutes <? 1 then "just now"
  else if minutes <? 60 then pretty minutes +:+ " min ago"
  else if hours <? 24
  then pretty hours +:+ " hour" +:+ (if 1 <? hours then "s" else "") +:+ " ago"
  else pretty days +:+ " day" +:+ (if 1 <? days then "s" else "") +:+ " ago".

End RelativeTime.

(** ** [src/search-transcripts.tsx]: the search over the loaded rows *)

Module SearchText.

(** The characters of the class [[.*+?^${}()|[\]\\]]. *)
Definition isRegexSpecial (c : ascii) : bool :=
  let n := nat_of_ascii c in
  (Nat.eqb n 46 || Nat.eqb n 42 || Nat.eqb n 43 || Nat.eqb n 63
   || Nat.eqb n 94 || Nat.eqb n 36 || Nat.eqb n 123 || Nat.eqb n 125
   || Nat.eqb n 40 || Nat.eqb n 41 || Nat.eqb n 124 || Nat.eqb n 91
   || Nat.eqb n 93 || Nat.eqb n 92)%bool.

(** The backslash. *)
Definition backslash : ascii := ascii_of_nat 92.

(** [str.replace(/[.*+?^${}()|[\]\\]/g, "\\$&")]: a backslash before every
    character of the class. *)
Fixpoint escapeRegex (str : string) : string :=
  match str with
  | EmptyString => EmptyString
  | String c rest =>
      if isRegexSpecial c
      then String backslash (String c (escapeRegex rest))
      else String c (escapeRegex rest)
  end.


(** [hay.includes(needle)] *)
Definition includes (needle hay : string) : bool :=
  match String.index 0 needle hay with
  | Some _ => true
  | None => false
  end.

(** [item.transcript && item.transcript.status === "ready"] *)
Definition hasReadyTranscript (item : SearchTranscripts.VideoWithTranscript)
  : bool :=
  match SearchTranscripts.transcript item with
  | Some t => bool_decide (Transcript.status t = ready)
  | None => false
  end.

(** The rows shown ([filteredVideos]): those with a ready transcript when
    nothing is searched, those whose ready transcript holds the query, case
    apart, otherwise. [toLowerCase] is the one of the runtime. *)
Definition filteredVideos (toLowerCase : string → string)
    (videosWithTranscripts : list SearchTranscripts.VideoWithTranscript)
    (searchText : string) : list SearchTranscripts.VideoWithTranscript :=
  match searchText with
  | EmptyString => List.filter hasReadyTranscript videosWithTranscripts
  | _ =>
      let query := toLowerCase searchText in
      List.filter
        (λ item,
           match SearchTranscripts.transcript item with
           | Some t =>
               if bool_decide (Transcript.status t = ready)
               then includes query (toLowerCase (Transcript.text t))
               else false
           | None => false
           end)
        videosWithTranscripts
  end.

End SearchText.

(** ** [src/browse-videos.tsx]: the details of the grid, the manual refresh *)

Module VideoDetails.





(** [sortedVideos.map((video) => videoDetailsRecord[video.id] || video)] *)
Definition videosWithDetails (videoDetailsRecord : gmap string Video.t)
    (sortedVideos : list Video.t) : list Video.t :=
  (λ video, default video (videoDetailsRecord !! Video.id video))
    <$> sortedVideos.

End VideoDetails.

Module ManualRefresh.




End ManualRefresh.

(** ** The pages of the catalog *)

Module Pages.

(** The pages that the server gives from a cursor on, following the cursor
    of each answer, up to the answer that says that there is no more. *)
Inductive chain (remote : Remote.t) (playlistId : option string)
  : option string → list (list Video.t) → Prop :=
| chain_last cursor response :
    Remote.listVideos remote
      {| Remote.cursor := cursor; Remote.limit := Some 50;
         Remote.playlistId := playlistId |} = Ok response →
    Remote.hasMore (Remote.pagination response) = false →
    chain remote playlistId cursor [Remote.videos response]
| chain_more cursor response pages :
    Remote.listVideos remote
      {| Remote.cursor := cursor; Remote.limit := Some 50;
         Remote.playlistId := playlistId |} = Ok response →
    Remote.hasMore (Remote.pagination response) = true →
    chain remote playlistId
      (Remote.nextCursor (Remote.pagination response)) pages →
    chain remote playlistId cursor (Remote.videos response :: pages).

(** The same, when the request after the pages fails. *)
Inductive brokenChain (remote : Remote.t) (playlistId : option string)
  : option string → nat → string → Prop :=
| broken_here cursor message :
    Remote.listVideos remote
      {| Remote.cursor := cursor; Remote.limit := Some 50;
         Remote.playlistId := playlistId |} = Throw message →
    brokenChain remote playlistId cursor 0 message
| broken_later cursor response n message :
    Remote.listVideos remote
      {| Remote.cursor := cursor; Remote.limit := Some 50;
         Remote.playlistId := playlistId |} = Ok response →
    Remote.hasMore (Remote.pagination response) = true →
    brokenChain remote playlistId
      (Remote.nextCursor (Remote.pagination response)) n message →
    brokenChain remote playlistId cursor (S n) message.

End Pages.

(** ** The time spent waiting by the fetch wrapper *)

Module Waiting.

(** The milliseconds of the waits of a trace of effects, added up. *)
Fixpoint totalWait (effects : list Api.Effect) : Z :=
  match effects with
  | [] => 0
  | Api.Wait ms :: rest => ms + totalWait rest
  | Api.Request _ :: rest => totalWait rest
  end.

(** The answer to attempt [j] has no [Retry-After] that the wrapper uses:
    none, one that is not a number, or zero. *)
Definition noUsableRetryAfter {T} (net : Api.Network T) (j : nat) : Prop :=
  match Api.headerAt net j with
  | Api.HeaderSeconds n => n = 0
  | Api.HeaderAbsent | Api.HeaderNotNumeric => True
  end.

End Waiting.

(** ** The storage at the start of a load of the transcripts *)

Module LoadStart.

(** The storage to which a load adds: cleared first by a forced refresh
    ([if (forceRefresh) await clearTranscriptCache()]). *)
Definition startOf (forceRefresh : bool) (store : LocalStorage.t)
  : LocalStorage.t :=
  if forceRefresh then Cache.clearTranscriptCache store else store.

End LoadStart.

(** ** More sample data *)

Module MoreSamples.

(** A catalog of two pages, ["v1"] then ["v2"], the second reached with the
    cursor ["c2"]. *)
Definition twoPages : Remote.t :=
  {| Remote.listVideos := λ params,
       match Remote.cursor params with
       | None =>
           Ok {| Remote.videos := [Samples.v1];
                 Remote.pagination := {| Remote.nextCursor := Some "c2";
                                         Remote.hasMore := true |} |}
       | Some _ =>
           Ok {| Remote.videos := [Samples.v2];
                 Remote.pagination := {| Remote.nextCursor := None;
                                         Remote.hasMore := false |} |}
       end;
     Remote.getVideo := λ k,
       if decide (k = "v1")
       then Ok {| Remote.video :=
                    {| Video.id := "v1"; Video.name := "first";
                       Video.transcript := Some Samples.readyTranscript |} |}
       else Throw "404 Not Found: " |}.

(** A catalog whose second page cannot be fetched. *)
Definition secondPageFails : Remote.t :=
  {| Remote.listVideos := λ params,
       match Remote.cursor params with
       | None =>
           Ok {| Remote.videos := [Samples.v1];
                 Remote.pagination := {| Remote.nextCursor := Some "c2";
                                         Remote.hasMore := true |} |}
       | Some _ => Throw "500 Internal Server Error: "
       end;
     Remote.getVideo := λ _, Throw "fetch failed" |}.

(** A storage whose video cache of all the videos holds ["v1"] and ["v2"],
    written at time 10, and no transcript. *)
Definition storageWithTwoVideos : LocalStorage.t :=
  Cache.setVideoCache [Samples.v1; Samples.v2] None 10 Samples.emptyStorage.

Definition brokenStorage : LocalStorage.t :=
  {| LocalStorage.items := ∅; LocalStorage.available := false |}.

(** A storage whose transcript cache is a corrupt text. *)
Definition corruptStorage : LocalStorage.t :=
  {| LocalStorage.items := {[ Cache.TRANSCRIPT_CACHE_KEY := OtherText "{oops" ]};
     LocalStorage.available := true |}.

Definition readyRow : SearchTranscripts.VideoWithTranscript :=
  {| SearchTranscripts.video := Samples.v1;
     SearchTranscripts.transcript := Some Samples.readyTranscript |}.

Definition emptyRow : SearchTranscripts.VideoWithTranscript :=
  {| SearchTranscripts.video := Samples.v2;
     SearchTranscripts.transcript := None |}.

End MoreSamples.

(** * Properties *)

(** ** The freshness policy *)

Section Freshness.

Import Cache.

Implicit Types (prefs : PreferenceValues) (cache : VideoCache.t) (now D : Z).

(** With a configured duration [D] other than zero, the three
    classifications are the three comparisons of the code. *)
Lemma classification_unfold prefs D now cache :
  getCacheDuration prefs = Js.Int D → D ≠ 0 →
  isCacheFresh prefs now cache
    = (getCacheAge now cache <? Utils.CACHE_FRESH_THRESHOLD_MS)
  ∧ isCacheStale prefs now cache
    = (Utils.CACHE_FRESH_THRESHOLD_MS <=? getCacheAge now cache)
      && (getCacheAge now cache <? D * 60 * 1000)
  ∧ isCacheExpired prefs now cache = (D * 60 * 1000 <=? getCacheAge now cache).
Proof.
  intros Hd Hnz.
  unfold isCacheFresh, isCacheStale, isCacheExpired, getCacheAge.
  rewrite Hd. cbn [Js.is_zero Js.mul Js.lt Js.ge].
  destruct (Z.eqb_spec D 0) as [?|_]; [contradiction|].
  repeat split; reflexivity.
Qed.

(** In the manual-only mode every classification is false. *)
Lemma manual_mode_unfold prefs now cache :
  getCacheDuration prefs = Js.Int 0 →
  isCacheFresh prefs now cache = false
  ∧ isCacheStale prefs now cache = false
  ∧ isCacheExpired prefs now cache = false.
Proof.
  intros Hd. unfold isCacheFresh, isCacheStale, isCacheExpired.
  rewrite Hd. repeat split; reflexivity.
Qed.

Lemma threshold_value : Utils.CACHE_FRESH_THRESHOLD_MS = 300000.
Proof. reflexivity. Qed.

(** The same, as conditions on the age. *)
Lemma classification_iff prefs D now cache :
  getCacheDuration prefs = Js.Int D → D ≠ 0 →
  let a := getCacheAge now cache in
  (isCacheFresh prefs now cache = true ↔ a < 5 * 60 * 1000)
  ∧ (isCacheStale prefs now cache = true ↔ 5 * 60 * 1000 ≤ a < D * 60 * 1000)
  ∧ (isCacheExpired prefs now cache = true ↔ D * 60 * 1000 ≤ a).
Proof.
  intros Hd Hnz a.
  destruct (classification_unfold prefs D now cache Hd Hnz) as (Hf & Hs & He).
  fold a in Hf, Hs, He. rewrite Hf, Hs, He, threshold_value.
  rewrite andb_true_iff, Z.ltb_lt, Z.ltb_lt, !Z.leb_le.
  repeat split; lia.
Qed.

(** C3, as the specification states it, fails: with the preference set to
    ["0"] an entry that is one minute old does not classify as fresh. *)
Lemma manual_mode_fresh_is_forced_false :
  let prefs := Preferences (Some "0") in
  let cache := {| VideoCache.videos := []; VideoCache.fetchedAt := 1000;
                  VideoCache.playlistId := None |} in
  getCacheDuration prefs = Js.Int 0
  ∧ getCacheAge 61000 cache = 60000
  ∧ 60000 < Utils.CACHE_FRESH_THRESHOLD_MS
  ∧ isCacheFresh prefs 61000 cache = false.
Proof. repeat split. Qed.

(** C3 (amended): when the configured duration is 0 (manual-refresh-only
    mode), for every cache entry and every age the stale, the expired and
    also the fresh classification are false: the guard [duration === 0] of
    [isCacheFresh] forces fresh to false as well. *)
Theorem manual_mode_all_false prefs now cache :
  getCacheDuration prefs = Js.Int 0 →
  isCacheStale prefs now cache = false
  ∧ isCacheExpired prefs now cache = false
  ∧ isCacheFresh prefs now cache = false.
Proof.
  intros Hd. destruct (manual_mode_unfold prefs now cache Hd) as (Hf & Hs & He).
  auto.
Qed.

Lemma manual_mode_all_false_witness :
  getCacheDuration (Preferences (Some "0")) = Js.Int 0
  ∧ isCacheStale (Preferences (Some "0")) 61000
      {| VideoCache.videos := []; VideoCache.fetchedAt := 1000;
         VideoCache.playlistId := None |} = false.
Proof.
  split; [reflexivity|].
  apply (manual_mode_all_false (Preferences (Some "0")) 61000
           {| VideoCache.videos := []; VideoCache.fetchedAt := 1000;
              VideoCache.playlistId := None |}).
  reflexivity.
Defined.




(** C10: when the [cacheDuration] preference is absent, or the lookup of the
    preferences throws, the duration is 30 minutes: the mode is not the
    manual-only one, an entry is stale from 5 minutes of age and expired
    from 30 minutes. *)
Theorem default_duration_is_30 prefs now cache :
  prefs = PreferencesThrow ∨ prefs = Preferences None →
  let a := getCacheAge now cache in
  getCacheDuration prefs = Js.Int 30
  ∧ Js.is_zero (getCacheDuration prefs) = false
  ∧ (isCacheFresh prefs now cache = true ↔ a < 5 * 60 * 1000)
  ∧ (isCacheStale prefs now cache = true ↔ 5 * 60 * 1000 ≤ a < 30 * 60 * 1000)
  ∧ (isCacheExpired prefs now cache = true ↔ 30 * 60 * 1000 ≤ a).
Proof.
  intros Hprefs a.
  assert (Hd : getCacheDuration prefs = Js.Int 30)
    by (destruct Hprefs; subst prefs; reflexivity).
  destruct (classification_iff prefs 30 now cache Hd) as (Hf & Hs & He);
    [lia|].
  fold a in Hf, Hs, He. rewrite Hd.
  split; [reflexivity|]. split; [reflexivity|]. auto.
Qed.

Lemma default_duration_is_30_witness :
  isCacheExpired (Preferences None) 1800000
    {| VideoCache.videos := []; VideoCache.fetchedAt := 0;
       VideoCache.playlistId := None |} = true.
Proof.
  apply (default_duration_is_30 (Preferences None) 1800000
           {| VideoCache.videos := []; VideoCache.fetchedAt := 0;
              VideoCache.playlistId := None |}); [right; reflexivity | ].
  unfold getCacheAge; simpl; lia.
Defined.

End Freshness.

(** ** The video collection cache: partitions *)

Section Partitions.

Import Cache Samples.

Lemma append_inj_l (p x y : string) : p +:+ x = p +:+ y → x = y.
Proof.
  induction p as [|c p IH]; simpl; [auto|].
  intros H. injection H as H. auto.
Qed.

(** Two partitions are kept under the same key exactly when they have the
    same name, where [None] and the empty id are named ["all"]. *)
Lemma getCacheKey_eq_iff (p1 p2 : option string) :
  getCacheKey p1 = getCacheKey p2 ↔ Js.or_default p1 "all" = Js.or_default p2 "all".
Proof.
  unfold getCacheKey. split; [|intros ->; reflexivity].
  intros H. apply append_inj_l in H. apply append_inj_l in H. exact H.
Qed.

(** A write either replaces the entry under its key, or (storage
    unavailable) changes nothing. *)
Lemma setVideoCache_items videos p now store :
  LocalStorage.items (setVideoCache videos p now store)
  = if LocalStorage.available store
    then <[getCacheKey p :=
             VideoCacheJson {| VideoCache.videos := videos;
                               VideoCache.fetchedAt := now;
                               VideoCache.playlistId := playlistId_or_null p |}]>
           (LocalStorage.items store)
    else LocalStorage.items store.
Proof.
  unfold setVideoCache, LocalStorage.setItem.
  destruct (LocalStorage.available store); reflexivity.
Qed.

Lemma setVideoCache_available videos p now store :
  LocalStorage.available (setVideoCache videos p now store)
  = LocalStorage.available store.
Proof.
  unfold setVideoCache, LocalStorage.setItem.
  destruct (LocalStorage.available store) eqn:E; simpl; auto.
Qed.

(** C9, as the specification states it, fails for the playlist whose id is
    the literal ["all"]: it is kept under the key of the [None] partition,
    and a write for it replaces the records and the clock of the latter. *)
Lemma partition_all_collides :
  let before :=
    setVideoCache [v1] None 10 emptyStorage in
  let after := setVideoCache [] (Some "all") 20 before in
  Some "all" ≠ (None : option string)
  ∧ getVideoCache None before
    = Some {| VideoCache.videos := [v1]; VideoCache.fetchedAt := 10;
              VideoCache.playlistId := None |}
  ∧ getVideoCache None after
    = Some {| VideoCache.videos := []; VideoCache.fetchedAt := 20;
              VideoCache.playlistId := Some "all" |}.
Proof. repeat split; [discriminate | vm_compute; reflexivity ..]. Qed.

(** C9 (amended): for every two partition keys [p1], [p2] with different
    names, where the name of a partition is its playlist id, and ["all"] for
    [None] and for the empty id, writing the video cache of [p1] leaves the
    entry of [p2] unchanged: what is stored under its key, hence its records
    and its [fetchedAt]. *)
Theorem write_leaves_other_partitions (p1 p2 : option string)
    (videos : list Video.t) (now : Z) (store : LocalStorage.t) :
  Js.or_default p1 "all" ≠ Js.or_default p2 "all" →
  LocalStorage.items (setVideoCache videos p1 now store) !! getCacheKey p2
  = LocalStorage.items store !! getCacheKey p2
  ∧ getVideoCache p2 (setVideoCache videos p1 now store)
    = getVideoCache p2 store.
Proof.
  intros Hne.
  assert (Hkey : getCacheKey p1 ≠ getCacheKey p2)
    by (intros H; apply Hne, getCacheKey_eq_iff, H).
  assert (Hitems :
    LocalStorage.items (setVideoCache videos p1 now store) !! getCacheKey p2
    = LocalStorage.items store !! getCacheKey p2).
  { rewrite setVideoCache_items.
    destruct (LocalStorage.available store); [|reflexivity].
    apply lookup_insert_ne, Hkey. }
  split; [exact Hitems|].
  unfold getVideoCache, LocalStorage.getItem.
  rewrite setVideoCache_available, Hitems. reflexivity.
Qed.

Lemma write_leaves_other_partitions_witness :
  let store :=
    setVideoCache [v1] None 10 emptyStorage in
  getVideoCache None (setVideoCache [] (Some "pl_1") 20 store)
  = getVideoCache None store.
Proof.
  apply (write_leaves_other_partitions (Some "pl_1") None [] 20).
  simpl. discriminate.
Defined.

End Partitions.

(** ** The transcript delta cache *)

Section TranscriptCacheProps.

Import Cache SearchTranscripts Samples.

Implicit Types (store : LocalStorage.t) (videoIds : gset string)
  (newTranscripts : gmap string CachedTranscript.t).

(** *** Reading back, merging *)

Lemma getTranscriptCache_set cache store :
  LocalStorage.available store = true →
  getTranscriptCache (setTranscriptCache cache store) = Some cache.
Proof.
  intros Hav.
  unfold getTranscriptCache, setTranscriptCache, LocalStorage.setItem,
    LocalStorage.getItem.
  rewrite Hav. simpl. rewrite lookup_insert_eq. reflexivity.
Qed.

Lemma setTranscriptCache_unavailable cache store :
  LocalStorage.available store = false → setTranscriptCache cache store = store.
Proof.
  intros Hav. unfold setTranscriptCache, LocalStorage.setItem.
  rewrite Hav. reflexivity.
Qed.

Lemma spread_lookup {V} (a b : gmap string V) k :
  spread a b !! k = match b !! k with Some v => Some v | None => a !! k end.
Proof.
  unfold spread. destruct (b !! k) as [v|] eqn:E.
  - apply lookup_union_Some_l, E.
  - apply lookup_union_r, E.
Qed.

Lemma spread_dom {V} (a b : gmap string V) : dom (spread a b) = dom a ∪ dom b.
Proof. unfold spread. rewrite dom_union_L. apply (comm_L _). Qed.

(** Adding transcripts never takes an id out of the storage. *)
Lemma addTranscriptsToCache_keeps newTranscripts now store :
  persistedIds store ⊆ persistedIds (addTranscriptsToCache newTranscripts now store).
Proof.
  unfold persistedIds, addTranscriptsToCache.
  destruct (LocalStorage.available store) eqn:Hav.
  - rewrite getTranscriptCache_set by exact Hav. simpl.
    rewrite spread_dom. set_solver.
  - rewrite setTranscriptCache_unavailable by exact Hav. reflexivity.
Qed.

(** C7: the merge is the right-biased union of the cached map with the new
    entries. No cached key is ever removed; when the storage takes the
    write, the cache read back holds every new entry, every cached entry
    whose key is not among the new ones, exactly the keys of both, and the
    merge time as [fetchedAt]. *)
Theorem merge_is_right_biased_union newTranscripts now store :
  let existing := transcripts_or_empty (getTranscriptCache store) in
  let after := addTranscriptsToCache newTranscripts now store in
  persistedIds store ⊆ persistedIds after
  ∧ (LocalStorage.available store = true →
     ∃ updated,
       getTranscriptCache after = Some updated
       ∧ TranscriptCache.fetchedAt updated = now
       ∧ (∀ k v, newTranscripts !! k = Some v →
                 TranscriptCache.transcripts updated !! k = Some v)
       ∧ (∀ k, newTranscripts !! k = None →
               TranscriptCache.transcripts updated !! k = existing !! k)
       ∧ dom (TranscriptCache.transcripts updated)
         = dom existing ∪ dom newTranscripts).
Proof.
  intros existing after. split.
  - apply addTranscriptsToCache_keeps.
  - intros Hav. eexists. split.
    + unfold after, addTranscriptsToCache.
      apply getTranscriptCache_set, Hav.
    + simpl. fold existing. repeat split.
      * intros k v Hk. rewrite spread_lookup, Hk. reflexivity.
      * intros k Hk. rewrite spread_lookup, Hk. reflexivity.
      * apply spread_dom.
Qed.

Lemma merge_is_right_biased_union_witness :
  ∃ updated,
    getTranscriptCache
      (addTranscriptsToCache {[ "v1" := oldTranscript ]} 100
         storageAfterDeletion) = Some updated
    ∧ TranscriptCache.fetchedAt updated = 100
    ∧ dom (TranscriptCache.transcripts updated) = {[ "v2" ]} ∪ {[ "v1" ]}.
Proof.
  destruct (merge_is_right_biased_union {[ "v1" := oldTranscript ]} 100
              storageAfterDeletion) as [_ H].
  destruct (H eq_refl) as (updated & Hget & Hat & _ & _ & Hdom).
  exists updated. split; [exact Hget|]. split; [exact Hat|].
  rewrite Hdom. vm_compute. reflexivity.
Defined.

(** *** The delta *)

(** C1: the worklist of the delta algorithm is the set difference of the
    current video ids and the cached ids: an id is in the worklist iff it is
    the id of a current video and is not a cached id; and the worklist does
    not depend on the order in which the videos or the cached keys are
    enumerated. *)
Theorem delta_is_set_difference (videos videos' : list Video.t)
    (keys keys' : list string) :
  videos ≡ₚ videos' → keys ≡ₚ keys' →
  let worklist := videosToFetch videos (newSet keys) in
  (∀ x, x ∈ ids worklist ↔ x ∈ ids videos ∧ x ∉ keys)
  ∧ (list_to_set (ids worklist) : gset string)
    = list_to_set (ids videos) ∖ list_to_set keys
  ∧ videosToFetch videos' (newSet keys') ≡ₚ worklist.
Proof.
  intros Hvideos Hkeys worklist.
  assert (Hmem : ∀ x, x ∈ ids worklist ↔ x ∈ ids videos ∧ x ∉ keys).
  { intros x. unfold worklist, videosToFetch, ids, newSet.
    rewrite !list_elem_of_fmap. split.
    - intros (v & -> & Hv). apply list_elem_of_filter in Hv as [Hnot Hv].
      rewrite elem_of_list_to_set in Hnot. eauto.
    - intros [(v & -> & Hv) Hnot]. exists v. split; [reflexivity|].
      apply list_elem_of_filter. rewrite elem_of_list_to_set. auto. }
  split; [exact Hmem|]. split.
  - apply set_eq. intros x.
    rewrite elem_of_difference, !elem_of_list_to_set. apply Hmem.
  - unfold worklist, videosToFetch, newSet.
    assert (Hset : (list_to_set keys' : gset string) = list_to_set keys)
      by (apply list_to_set_perm_L; symmetry; exact Hkeys).
    rewrite Hset, <- Hvideos. reflexivity.
Qed.

Lemma delta_is_set_difference_witness :
  videosToFetch [v2; v1] (newSet ["v2"; "v9"])
  ≡ₚ videosToFetch [v1; v2] (newSet ["v9"; "v2"]).
Proof.
  apply (delta_is_set_difference [v1; v2] [v2; v1] ["v9"; "v2"] ["v2"; "v9"]).
  - apply perm_swap.
  - apply perm_swap.
Defined.

(** *** Pruning *)

Lemma pruneEntries_step videoIds (entries : list (string * CachedTranscript.t))
    (acc : gmap string CachedTranscript.t) k :
  NoDup entries.*1 →
  foldl (λ validTranscripts entry,
           if decide (entry.1 ∈ videoIds)
           then <[entry.1 := entry.2]> validTranscripts
           else validTranscripts) acc entries !! k
  = match (if decide (k ∈ videoIds)
           then (list_to_map entries : gmap string CachedTranscript.t) !! k
           else None) with
    | Some v => Some v
    | None => acc !! k
    end.
Proof.
  revert acc. induction entries as [|[k0 v0] rest IH]; intros acc Hnd.
  - simpl. rewrite lookup_empty. destruct (decide _); reflexivity.
  - rewrite fmap_cons in Hnd. apply NoDup_cons in Hnd as [Hk0 Hnd].
    cbn [fst] in Hk0. cbn [foldl]. rewrite (IH _ Hnd).
    change (list_to_map ((k0, v0) :: rest) : gmap string CachedTranscript.t)
      with (<[k0 := v0]> (list_to_map rest : gmap string CachedTranscript.t)).
    cbn [fst snd].
    destruct (decide (k ∈ videoIds)) as [Hin|Hout].
    + destruct (decide (k = k0)) as [->|Hne].
      * rewrite lookup_insert_eq.
        rewrite (not_elem_of_list_to_map_1 (M := gmap string) rest k0 Hk0).
        rewrite decide_True by exact Hin.
        rewrite lookup_insert_eq. reflexivity.
      * rewrite (lookup_insert_ne (list_to_map rest)) by auto.
        destruct (list_to_map rest !! k); [reflexivity|].
        destruct (decide (k0 ∈ videoIds)); [|reflexivity].
        rewrite lookup_insert_ne by auto. reflexivity.
    + destruct (decide (k0 ∈ videoIds)) as [Hin0|]; [|reflexivity].
      rewrite lookup_insert_ne; [reflexivity|]. intros ->. auto.
Qed.

(** Whatever the order in which the entries of the cache are enumerated, the
    pruned map holds the cached entries whose key is a valid id. *)
Lemma pruneEntries_lookup videoIds (transcripts : gmap string CachedTranscript.t)
    entries k :
  entries ≡ₚ objectEntries transcripts →
  pruneEntries videoIds entries !! k
  = if decide (k ∈ videoIds) then transcripts !! k else None.
Proof.
  intros Hperm. unfold pruneEntries.
  assert (Hnd : NoDup entries.*1).
  { rewrite Hperm. apply NoDup_fst_map_to_list. }
  rewrite pruneEntries_step by exact Hnd.
  rewrite (list_to_map_proper entries (objectEntries transcripts) Hnd Hperm).
  unfold objectEntries. rewrite list_to_map_to_list, lookup_empty.
  destruct (decide _); [|reflexivity]. destruct (transcripts !! k); reflexivity.
Qed.

(** The cached ids that the delta is computed from are the keys of the
    map. *)
Lemma newSet_objectKeys (transcripts : gmap string CachedTranscript.t) :
  newSet (objectKeys transcripts) = dom transcripts.
Proof.
  unfold newSet, objectKeys. apply set_eq. intros k.
  rewrite elem_of_list_to_set, elem_of_dom, list_elem_of_fmap. split.
  - intros ([k' v] & -> & Hin). apply elem_of_map_to_list in Hin. eauto.
  - intros [v Hv]. exists (k, v). split; [reflexivity|].
    apply elem_of_map_to_list, Hv.
Qed.

(** Two filters that agree on the elements of a list give the same list. *)
Lemma filter_agree {A} (P Q : A → Prop) `{!∀ x, Decision (P x)}
    `{!∀ x, Decision (Q x)} (l : list A) :
  (∀ x, x ∈ l → P x ↔ Q x) → filter P l = filter Q l.
Proof.
  induction l as [|x l IH]; intros Hagree; [reflexivity|].
  rewrite !filter_cons.
  rewrite IH by (intros y Hy; apply Hagree; right; exact Hy).
  destruct (decide (P x)) as [HP|HP], (decide (Q x)) as [HQ|HQ];
    try reflexivity; exfalso.
  - apply HQ, (Hagree x); [left|exact HP].
  - apply HP, (Hagree x); [left|exact HQ].
Qed.

(** Pruning with the ids of the videos does not change the worklist: the
    keys it removes are not ids of current videos. *)
Lemma prune_does_not_change_delta videos (transcriptCache : TranscriptCache.t) :
  videosToFetch videos
    (newSet (objectKeys (TranscriptCache.transcripts
                           (pruneTranscripts (newSet (ids videos)) transcriptCache))))
  = videosToFetch videos
      (newSet (objectKeys (TranscriptCache.transcripts transcriptCache))).
Proof.
  unfold videosToFetch. rewrite !newSet_objectKeys.
  apply filter_agree.
  intros v Hv. rewrite !elem_of_dom. unfold pruneTranscripts. simpl.
  rewrite (pruneEntries_lookup _ (TranscriptCache.transcripts transcriptCache))
    by reflexivity.
  rewrite decide_True; [reflexivity|].
  unfold newSet, ids. apply elem_of_list_to_set, list_elem_of_fmap_2, Hv.
Qed.

(** The example of the specification: cached ids v1, v2, v3, valid ids v1,
    v3, v4; after the prune the copy in memory holds v1 and v3, and the
    worklist is v4. *)
Example prune_then_delta :
  let videos := (λ k, {| Video.id := k; Video.name := k;
                         Video.transcript := None |}) <$> ["v1"; "v3"; "v4"] in
  let cached := {| TranscriptCache.transcripts :=
                     {[ "v1" := oldTranscript; "v2" := oldTranscript;
                        "v3" := oldTranscript ]};
                   TranscriptCache.fetchedAt := 5 |} in
  let pruned := pruneTranscripts (newSet (ids videos)) cached in
  dom (TranscriptCache.transcripts pruned) = {[ "v1"; "v3" ]}
  ∧ ids (videosToFetch videos
           (newSet (objectKeys (TranscriptCache.transcripts pruned))))
    = ["v4"].
Proof. split; vm_compute; reflexivity. Qed.





End TranscriptCacheProps.

(** ** The batch fetch of transcripts *)

Section BatchFetch.

Import SearchTranscripts Samples.

Implicit Types (remote : Remote.t) (videos : list Video.t) (st : FetchState)
  (C i fuel : nat).

Lemma slice_take_drop {A} i C (l : list A) :
  slice i (i + C) l = take C (drop i l).
Proof. unfold slice. f_equal. lia. Qed.



Lemma fetchOne_entry remote v k c :
  (fetchOne remote v).2 = Some (k, c) ↔
  k = Video.id v
  ∧ ∃ response t,
      Remote.getVideo remote (Video.id v) = Ok response
      ∧ Video.transcript (Remote.video response) = Some t
      ∧ Transcript.status t = ready
      ∧ c = {| CachedTranscript.status := ready;
               CachedTranscript.text := Transcript.text t;
               CachedTranscript.videoName := Video.name v;
               CachedTranscript.sentences := Some (Transcript.sentences t) |}.
Proof.
  unfold fetchOne. split.
  - destruct (Remote.getVideo remote (Video.id v)) as [response|];
      [|discriminate]. simpl.
    destruct (Video.transcript (Remote.video response)) as [t|] eqn:Ht;
      [|discriminate].
    destruct (decide (Transcript.status t = ready)) as [Hr|]; [|discriminate].
    intros [= <- <-]. split; [reflexivity|].
    exists response, t. rewrite Hr. auto.
  - intros (-> & response & t & Hget & Ht & Hr & ->).
    rewrite Hget. simpl. rewrite Ht, decide_True by exact Hr.
    rewrite Hr. reflexivity.
Qed.

(** The entries that a run of requests stores. *)
Lemma store_entries_app entries1 entries2 m :
  store_entries (entries1 ++ entries2) m
  = store_entries entries2 (store_entries entries1 m).
Proof. unfold store_entries. apply foldl_app. Qed.


Lemma store_entries_dom entries (m : gmap string CachedTranscript.t) k :
  k ∈ dom (store_entries entries m) ↔
  k ∈ dom m ∨ ∃ c, Some (k, c) ∈ entries.
Proof.
  revert m. induction entries as [|[[k0 c0]|] rest IH]; intros m; simpl.
  - split; [auto|]. intros [H|[c H]]; [exact H|]. inversion H.
  - rewrite IH, dom_insert, elem_of_union, elem_of_singleton. split.
    + intros [[->|H]|[c H]]; [right; exists c0; left | auto
                              | right; exists c; right; exact H].
    + intros [H|[c H]]; [auto|].
      apply elem_of_cons in H as [[= -> ->]|H]; [auto|right; eauto].
  - rewrite IH. split.
    + intros [H|[c H]]; [auto|right; exists c; right; exact H].
    + intros [H|[c H]]; [auto|].
      apply elem_of_cons in H as [[=]|H]. right; eauto.
Qed.

(** The loop, run with enough fuel from index [i], ends, and handles the
    videos from [i] on, each exactly once and in order. *)
Lemma fetchTranscripts_loop_ends fuel remote videos C i st :
  (1 ≤ C)%nat → (length videos ≤ i + fuel * C)%nat →
  ∃ st',
    fetchTranscripts_loop fuel remote videos C i st = Some st'
    ∧ results st' = results st ++ (fetchOne remote <$> drop i videos).*1
    ∧ newTranscripts st'
      = store_entries (fetchOne remote <$> drop i videos).*2 (newTranscripts st).
Proof.
  intros HC. revert i st. induction fuel as [|fuel IH]; intros i st Hfuel.
  - simpl. rewrite decide_False by lia. exists st.
    rewrite drop_ge by lia. simpl. rewrite app_nil_r. auto.
  - simpl. destruct (decide (i < length videos)%nat) as [Hlt|Hge].
    + edestruct (IH (i + C)%nat) as (st' & Hrun & Hres & Hnew); [lia|].
      exists st'. split; [exact Hrun|].
      rewrite Hres, Hnew. simpl. rewrite slice_take_drop.
      assert (Hsplit : drop i videos
                       = take C (drop i videos) ++ drop (i + C) videos)
        by (rewrite <- drop_drop; symmetry; apply take_drop).
      set (batch := take C (drop i videos)) in *.
      set (rest := drop (i + C) videos) in *.
      rewrite Hsplit, !fmap_app, store_entries_app, <- app_assoc. auto.
    + exists st. rewrite drop_ge by lia. simpl. rewrite app_nil_r. auto.
Qed.




(** The example of the specification: five items in one batch, the third
    throws; the payload holds the other four. *)
Example third_of_five_fails :
  match fetchTranscripts 5 catalogFailingThird fiveVideos
          Utils.FETCH_CONCURRENCY with
  | Some st =>
      dom (newTranscripts st) = {[ "a1"; "a2"; "a4"; "a5" ]}
      ∧ batches st = [["a1"; "a2"; "a3"; "a4"; "a5"]]
      ∧ List.length (results st) = 5%nat
  | None => False
  end.
Proof. vm_compute. repeat split. Qed.

End BatchFetch.

(** ** The fetch wrapper: retries on 429 *)

Section Retry.

Import Api Samples.

Context {T : Type}.
Implicit Types (net : Network T) (attempt : nat) (res : Response T).

Lemma tellaFetch_step tellaApiKey net attempt :
  tellaFetch tellaApiKey net attempt
  = match getAuthHeaders tellaApiKey with
    | Throw message => ([], Throw message)
    | Ok _ =>
        match net attempt with
        | Rejects message => ([Request attempt], Throw message)
        | Resolves res =>
            if decide (status res = 429) then
              if decide (attempt < 3)%nat then
                let '(effects, result) :=
                  tellaFetch tellaApiKey net (S attempt) in
                (Request attempt :: Wait (waitMs (retryAfter res) attempt)
                   :: effects, result)
              else ([Request attempt; Wait (waitMs (retryAfter res) attempt)],
                    finish res)
            else ([Request attempt], finish res)
        end
    end.
Proof.
  etransitivity; [apply tellaFetch_unfold_eq|].
  unfold tellaFetch_unfold.
  destruct (getAuthHeaders tellaApiKey); simpl; [|reflexivity].
  destruct (net attempt) as [|res]; simpl; [reflexivity|].
  destruct (decide (status res = 429)); simpl; [|reflexivity].
  destruct (decide (attempt < 3)%nat); simpl; reflexivity.
Qed.

Lemma requests_cons_request attempt effects :
  requests (Request attempt :: effects) = S (requests effects).
Proof. reflexivity. Qed.

Lemma requests_cons_wait ms effects :
  requests (Wait ms :: effects) = requests effects.
Proof. reflexivity. Qed.

Lemma requests_app effects1 effects2 :
  requests (effects1 ++ effects2) = (requests effects1 + requests effects2)%nat.
Proof.
  unfold requests. rewrite List.filter_app, length_app. reflexivity.
Qed.

Lemma requests_retriedEffects net a k : requests (retriedEffects net a k) = k.
Proof.
  unfold retriedEffects. revert a. induction k as [|k IH]; intros a.
  - reflexivity.
  - simpl. rewrite requests_cons_request, requests_cons_wait, IH. reflexivity.
Qed.

(** From attempt [attempt] on, the wrapper issues at most the requests of
    the attempts up to 3. *)
Lemma requests_bound tellaApiKey net attempt :
  (attempt ≤ 3)%nat →
  (requests (tellaFetch tellaApiKey net attempt).1 + attempt ≤ 4)%nat.
Proof.
  remember (3 - attempt)%nat as n eqn:Hn. revert attempt Hn.
  induction n as [|n IH]; intros attempt Hn Hle; rewrite tellaFetch_step;
    (destruct (getAuthHeaders tellaApiKey); [|simpl; lia]);
    (destruct (net attempt) as [|res]; [simpl; lia|]);
    (destruct (decide (status res = 429)); [|simpl; lia]);
    (destruct (decide (attempt < 3)%nat); [|simpl; lia]).
  - lia.
  - specialize (IH (S attempt) ltac:(lia) ltac:(lia)).
    destruct (tellaFetch tellaApiKey net (S attempt)) as [effects result].
    cbn [fst] in *. rewrite requests_cons_request, requests_cons_wait. lia.
Qed.

(** As long as the answers are 429 and an attempt is left, the wrapper
    waits and goes on with the next attempt. *)
Lemma retry_chain tellaApiKey net a k :
  tellaApiKey ≠ "" → (a + k ≤ 3)%nat →
  (∀ j, (a ≤ j < a + k)%nat → answers429 net j) →
  tellaFetch tellaApiKey net a
  = (retriedEffects net a k ++ (tellaFetch tellaApiKey net (a + k)).1,
     (tellaFetch tellaApiKey net (a + k)).2).
Proof.
  intros Hkey. revert a. induction k as [|k IH]; intros a Hle H429.
  - rewrite Nat.add_0_r. simpl.
    destruct (tellaFetch tellaApiKey net a); reflexivity.
  - rewrite tellaFetch_step.
    destruct tellaApiKey as [|c key]; [contradiction|]. cbn [getAuthHeaders].
    destruct (H429 a ltac:(lia)) as (res & Hres & Hstatus).
    rewrite Hres, decide_True by exact Hstatus.
    rewrite decide_True by lia.
    rewrite (IH (S a)) by (try lia; intros j Hj; apply H429; lia).
    replace (S a + k)%nat with (a + S k)%nat by lia.
    unfold retriedEffects. cbn [seq flat_map app].
    assert (headerAt net a = retryAfter res) as ->
      by (unfold headerAt; rewrite Hres; reflexivity).
    reflexivity.
Qed.

(** An answer other than 429 ends the call at once. *)
Lemma no_retry_without_429 tellaApiKey net attempt :
  tellaApiKey ≠ "" → ¬ answers429 net attempt →
  tellaFetch tellaApiKey net attempt
  = ([Request attempt], outcomeAt net attempt).
Proof.
  intros Hkey Hnot. rewrite tellaFetch_step.
  destruct tellaApiKey as [|c key]; [contradiction|]. cbn [getAuthHeaders].
  unfold outcomeAt. destruct (net attempt) as [|res] eqn:Hnet; [reflexivity|].
  destruct (decide (status res = 429)) as [Hs|]; [|reflexivity].
  exfalso. apply Hnot. exists res. auto.
Qed.

(** A 429 at attempt 3 is not retried: the wrapper waits, then throws. *)
Lemma last_attempt_429 tellaApiKey net res :
  tellaApiKey ≠ "" → net 3%nat = Resolves res → status res = 429 →
  tellaFetch tellaApiKey net 3
  = ([Request 3; Wait (waitMs (retryAfter res) 3)],
     Throw (pretty 429 +:+ " " +:+ statusText res +:+ ": " +:+ body res)).
Proof.
  intros Hkey Hnet Hstatus. rewrite tellaFetch_step.
  destruct tellaApiKey as [|c key]; [contradiction|]. cbn [getAuthHeaders].
  rewrite Hnet, decide_True by exact Hstatus.
  rewrite decide_False by lia.
  unfold finish, ok. rewrite Hstatus. reflexivity.
Qed.

(** C6, as the specification states it, fails: against a server that keeps
    answering 429 the wrapper makes four requests, not three, before the
    error reaches the caller. *)
Lemma persistent_429_takes_four_requests :
  tellaFetch "key" always429 0
  = ([Request 0; Wait 500; Request 1; Wait 1000; Request 2; Wait 2000;
      Request 3; Wait 4000],
     Throw "429 Too Many Requests: slow down")
  ∧ requests (tellaFetch "key" always429 0).1 = 4%nat.
Proof. split; vm_compute; reflexivity. Qed.

(** C6 (amended): on a 429 answer the wrapper waits the seconds of
    [Retry-After] or, without a usable header, 500 ms doubled per attempt,
    and then retries, up to 3 retries, that is 4 requests in all. The first
    answer that is not a 429 ends the call at once. After a fourth 429 the
    wrapper waits once more and the error goes to the caller. *)
Theorem retry_on_429 tellaApiKey net :
  tellaApiKey ≠ "" →
  (requests (tellaFetch tellaApiKey net 0).1 ≤ 4)%nat
  ∧ (∀ k, (k ≤ 3)%nat →
          (∀ j, (j < k)%nat → answers429 net j) → ¬ answers429 net k →
          tellaFetch tellaApiKey net 0
          = (retriedEffects net 0 k ++ [Request k], outcomeAt net k))
  ∧ ((∀ j, (j ≤ 3)%nat → answers429 net j) →
     ∃ message,
       tellaFetch tellaApiKey net 0 = (retriedEffects net 0 4, Throw message)
       ∧ requests (tellaFetch tellaApiKey net 0).1 = 4%nat)
  ∧ (∀ j, waitMs HeaderAbsent j = 500 * 2 ^ Z.of_nat j
          ∧ waitMs HeaderNotNumeric j = 500 * 2 ^ Z.of_nat j
          ∧ ∀ n, n ≠ 0 → waitMs (HeaderSeconds n) j = n * 1000).
Proof.
  intros Hkey. split; [|split; [|split]].
  - pose proof (requests_bound tellaApiKey net 0). lia.
  - intros k Hk H429 Hnot.
    rewrite (retry_chain tellaApiKey net 0 k Hkey) by (try lia; intros j Hj; apply H429; lia).
    cbn [Nat.add]. rewrite no_retry_without_429 by assumption. reflexivity.
  - intros H429.
    destruct (H429 3%nat ltac:(lia)) as (res & Hnet & Hstatus).
    eexists.
    rewrite (retry_chain tellaApiKey net 0 3 Hkey) by (try lia; intros j Hj; apply H429; lia).
    cbn [Nat.add].
    rewrite (last_attempt_429 tellaApiKey net res Hkey Hnet Hstatus).
    cbn [fst snd]. split.
    + f_equal. unfold retriedEffects. cbn [seq flat_map app].
      assert (headerAt net 3 = retryAfter res) as ->
        by (unfold headerAt; rewrite Hnet; reflexivity).
      reflexivity.
    + rewrite requests_app, requests_retriedEffects. reflexivity.
  - intros j. repeat split.
    intros n Hn. unfold waitMs. simpl.
    destruct (Z.eqb_spec n 0); [contradiction|reflexivity].
Qed.

End Retry.

Lemma retry_on_429_witness :
  Api.tellaFetch "key" Samples.busyOnce 0
  = (Api.retriedEffects Samples.busyOnce 0 1 ++ [Api.Request 1],
     Api.outcomeAt Samples.busyOnce 1).
Proof.
  destruct (retry_on_429 "key" Samples.busyOnce) as (_ & Hstop & _);
    [discriminate|].
  apply (Hstop 1%nat).
  - lia.
  - intros j Hj. assert (j = 0%nat) as -> by lia.
    eexists. split; reflexivity.
  - intros (res & Hres & Hstatus). injection Hres as <-. discriminate.
Defined.

(** One 429 with [Retry-After: 2], then a success: one wait of two
    seconds, two requests. *)
Example retry_after_header_is_honoured :
  Api.tellaFetch "key" Samples.busyOnce 0
  = ([Api.Request 0; Api.Wait 2000; Api.Request 1], Ok tt).
Proof. vm_compute. reflexivity. Qed.

(** ** The video load: fallback pagination *)

Section Fallback.

Import BrowseVideos Samples.

Implicit Types (remote : Remote.t) (st : State) (store : LocalStorage.t)
  (playlistId : option string) (videos : list Video.t).


(** A failed fetch of the pages leaves the state and the storage as they
    were, and throws. *)
Lemma refreshAllVideos_throw fuel remote playlistId now st store message :
  Remote.listAllVideos fuel remote playlistId None [] = Some (Throw message) →
  refreshAllVideos fuel remote playlistId now st store
  = Some (Throw message, st, store).
Proof. intros H. unfold refreshAllVideos. rewrite H. reflexivity. Qed.

Lemma accumulate_first_page newVideos prev :
  accumulate None newVideos prev = newVideos.
Proof. reflexivity. Qed.





(** In fallback mode, against [catalog]: the first page replaces the list,
    a further page that repeats ["v1"] adds nothing. *)
Example fallback_pages :
  accumulate None [v1] [v2] = [v1]
  ∧ accumulate (Some "cursor-2") [v1; v2] [v1] = [v1; v2].
Proof. split; vm_compute; reflexivity. Qed.

End Fallback.

(** * Further properties of the code *)

(** ** The caches in the storage *)

Section StorageProps.

Import Cache SearchTranscripts Samples MoreSamples.

Implicit Types (store : LocalStorage.t) (p : option string)
  (videos : list Video.t) (now : Z).

Lemma transcript_key_is_no_video_key p : getCacheKey p ≠ TRANSCRIPT_CACHE_KEY.
Proof. unfold getCacheKey, TRANSCRIPT_CACHE_KEY. simpl. discriminate. Qed.

Lemma clearTranscriptCache_items store :
  LocalStorage.items (clearTranscriptCache store)
  = if LocalStorage.available store
    then delete TRANSCRIPT_CACHE_KEY (LocalStorage.items store)
    else LocalStorage.items store.
Proof.
  unfold clearTranscriptCache, LocalStorage.removeItem.
  destruct (LocalStorage.available store); reflexivity.
Qed.

Lemma clearTranscriptCache_available store :
  LocalStorage.available (clearTranscriptCache store)
  = LocalStorage.available store.
Proof.
  unfold clearTranscriptCache, LocalStorage.removeItem.
  destruct (LocalStorage.available store) eqn:E; simpl; auto.
Qed.

Lemma setTranscriptCache_items cache store :
  LocalStorage.items (setTranscriptCache cache store)
  = if LocalStorage.available store
    then <[TRANSCRIPT_CACHE_KEY := TranscriptCacheJson cache]>
           (LocalStorage.items store)
    else LocalStorage.items store.
Proof.
  unfold setTranscriptCache, LocalStorage.setItem.
  destruct (LocalStorage.available store); reflexivity.
Qed.

Lemma setTranscriptCache_available cache store :
  LocalStorage.available (setTranscriptCache cache store)
  = LocalStorage.available store.
Proof.
  unfold setTranscriptCache, LocalStorage.setItem.
  destruct (LocalStorage.available store) eqn:E; simpl; auto.
Qed.

Lemma getTranscriptCache_clear store :
  getTranscriptCache (clearTranscriptCache store) = None.
Proof.
  unfold getTranscriptCache, LocalStorage.getItem.
  rewrite clearTranscriptCache_available, clearTranscriptCache_items.
  destruct (LocalStorage.available store); [|reflexivity].
  rewrite lookup_delete_eq. reflexivity.
Qed.

Lemma spread_empty_l {V} (b : gmap string V) : spread ∅ b = b.
Proof. unfold spread. apply (right_id_L ∅ (∪)). Qed.

(** X1: a write of the video cache followed by a read of the same partition
    gives back exactly the videos written, the time of the write as
    [fetchedAt] and the partition ([null] for the partition of all videos),
    whatever the storage held before, when the storage takes the write. *)
Theorem video_cache_round_trip videos p now store :
  LocalStorage.available store = true →
  getVideoCache p (setVideoCache videos p now store)
  = Some {| VideoCache.videos := videos;
            VideoCache.fetchedAt := now;
            VideoCache.playlistId := playlistId_or_null p |}.
Proof.
  intros Hav. unfold getVideoCache, LocalStorage.getItem.
  rewrite setVideoCache_available, setVideoCache_items, Hav.
  rewrite lookup_insert_eq. reflexivity.
Qed.

Lemma video_cache_round_trip_witness :
  getVideoCache (Some "pl_1")
    (setVideoCache [v2] (Some "pl_1") 20 storageWithTwoVideos)
  = Some {| VideoCache.videos := [v2]; VideoCache.fetchedAt := 20;
            VideoCache.playlistId := Some "pl_1" |}.
Proof.
  apply (video_cache_round_trip [v2] (Some "pl_1") 20 storageWithTwoVideos).
  reflexivity.
Defined.

(** X2: when the transcript cache is absent from the storage or its text is
    corrupt, a merge starts from the empty map: the cache read back holds
    exactly the new entries. *)
Theorem merge_over_missing_cache
    (newTranscripts : gmap string CachedTranscript.t) now store :
  LocalStorage.available store = true →
  getTranscriptCache store = None →
  getTranscriptCache (addTranscriptsToCache newTranscripts now store)
  = Some {| TranscriptCache.transcripts := newTranscripts;
            TranscriptCache.fetchedAt := now |}.
Proof.
  intros Hav Hmiss. unfold addTranscriptsToCache.
  rewrite getTranscriptCache_set by exact Hav.
  rewrite Hmiss. simpl. rewrite spread_empty_l. reflexivity.
Qed.

Lemma merge_over_missing_cache_witness :
  getTranscriptCache
    (addTranscriptsToCache {[ "v1" := oldTranscript ]} 30 corruptStorage)
  = Some {| TranscriptCache.transcripts := {[ "v1" := oldTranscript ]};
            TranscriptCache.fetchedAt := 30 |}.
Proof.
  apply (merge_over_missing_cache {[ "v1" := oldTranscript ]} 30 corruptStorage);
    reflexivity.
Defined.

(** X3: the video caches and the transcript cache do not share a key: a
    write of any video cache leaves the transcript cache as it was, and a
    merge into the transcript cache or its clearing leaves every video cache
    as it was. *)
Theorem caches_do_not_interfere videos p now store
    (newTranscripts : gmap string CachedTranscript.t) :
  getTranscriptCache (setVideoCache videos p now store)
  = getTranscriptCache store
  ∧ getVideoCache p (addTranscriptsToCache newTranscripts now store)
    = getVideoCache p store
  ∧ getVideoCache p (clearTranscriptCache store) = getVideoCache p store.
Proof.
  pose proof (transcript_key_is_no_video_key p) as Hkey.
  split; [|split].
  - unfold getTranscriptCache, LocalStorage.getItem.
    rewrite setVideoCache_available, setVideoCache_items.
    destruct (LocalStorage.available store); [|reflexivity].
    rewrite lookup_insert_ne by exact Hkey. reflexivity.
  - unfold addTranscriptsToCache, getVideoCache, LocalStorage.getItem.
    rewrite setTranscriptCache_available, setTranscriptCache_items.
    destruct (LocalStorage.available store); [|reflexivity].
    rewrite lookup_insert_ne by auto. reflexivity.
  - unfold getVideoCache, LocalStorage.getItem.
    rewrite clearTranscriptCache_available, clearTranscriptCache_items.
    destruct (LocalStorage.available store); [|reflexivity].
    rewrite lookup_delete_ne by auto. reflexivity.
Qed.


End StorageProps.

(** ** The freshness policy, further *)

Section FreshnessProps.

Import Cache.

Implicit Types (prefs : PreferenceValues) (cache : VideoCache.t).

(** X5: for a given entry and preference, as the time goes on an entry that
    is expired stays expired, an entry that is no longer fresh does not
    become fresh again, and an entry that is stale at two times is stale in
    between. *)
Theorem classification_follows_time prefs cache (t1 t2 t3 : Z) :
  t1 ≤ t2 → t2 ≤ t3 →
  (isCacheExpired prefs t1 cache = true → isCacheExpired prefs t2 cache = true)
  ∧ (isCacheFresh prefs t1 cache = false → isCacheFresh prefs t2 cache = false)
  ∧ (isCacheStale prefs t1 cache = true → isCacheStale prefs t3 cache = true →
     isCacheStale prefs t2 cache = true).
Proof.
  intros H12 H23.
  unfold isCacheExpired, isCacheFresh, isCacheStale.
  destruct (getCacheDuration prefs) as [|D]; simpl.
  - rewrite threshold_value. repeat split; intros; try discriminate;
      repeat match goal with
        | H : (_ <? _) = false |- _ => apply Z.ltb_ge in H
        | H : _ && false = true |- _ => rewrite andb_false_r in H; discriminate
        end;
      try (apply Z.ltb_ge; lia).
  - destruct (D =? 0); [repeat split; intros; discriminate|].
    rewrite threshold_value. repeat split; intros;
      repeat match goal with
        | H : _ && _ = true |- _ => apply andb_true_iff in H; destruct H
        | H : (_ <? _) = true |- _ => apply Z.ltb_lt in H
        | H : (_ <? _) = false |- _ => apply Z.ltb_ge in H
        | H : (_ <=? _) = true |- _ => apply Z.leb_le in H
        end;
      try (apply andb_true_iff; split);
      first [apply Z.leb_le; lia | apply Z.ltb_lt; lia | apply Z.ltb_ge; lia].
Qed.

Lemma classification_follows_time_witness :
  isCacheExpired (Preferences (Some "5")) 400000
    {| VideoCache.videos := []; VideoCache.fetchedAt := 0;
       VideoCache.playlistId := None |} = true.
Proof.
  eapply (classification_follows_time (Preferences (Some "5"))
            {| VideoCache.videos := []; VideoCache.fetchedAt := 0;
               VideoCache.playlistId := None |} 300000 400000 400000).
  - lia.
  - lia.
  - reflexivity.
Defined.

(** X6: when the [cacheDuration] preference holds a text that [parseInt]
    does not read as a number, an entry is never stale and never expired,
    and it is fresh while its age is below five minutes. *)
Theorem unreadable_duration_never_refreshes prefs now cache :
  getCacheDuration prefs = Js.NaN →
  isCacheStale prefs now cache = false
  ∧ isCacheExpired prefs now cache = false
  ∧ (isCacheFresh prefs now cache = true
     ↔ getCacheAge now cache < 5 * 60 * 1000).
Proof.
  intros Hd. unfold isCacheStale, isCacheExpired, isCacheFresh, getCacheAge.
  rewrite Hd. simpl. rewrite andb_false_r, threshold_value.
  split; [reflexivity|]. split; [reflexivity|]. apply Z.ltb_lt.
Qed.

Lemma unreadable_duration_never_refreshes_witness :
  isCacheExpired (Preferences (Some "never")) 999999999
    {| VideoCache.videos := []; VideoCache.fetchedAt := 0;
       VideoCache.playlistId := None |} = false.
Proof.
  apply (unreadable_duration_never_refreshes (Preferences (Some "never"))
           999999999
           {| VideoCache.videos := []; VideoCache.fetchedAt := 0;
              VideoCache.playlistId := None |}).
  reflexivity.
Defined.

End FreshnessProps.

(** ** The age shown to the user *)

Section RelativeTimeProps.

Import RelativeTime.

Lemma floor_bounds (a b : Z) : 0 < b → b * (a / b) ≤ a < b * (a / b) + b.
Proof.
  intros Hb. pose proof (Z.div_mod a b ltac:(lia)) as Hdm.
  pose proof (Z.mod_pos_bound a b Hb). lia.
Qed.

(** X7: the text of the age of a timestamp: ["just now"] below one minute
    (also for a timestamp in the future), the whole minutes from 1 to 59
    below one hour, the whole hours from 1 to 23 below one day, the whole
    days from then on, with ["hour"] and ["day"] in the singular for one
    and in the plural from two. *)
Theorem relative_time_by_age (now timestamp : Z) :
  let age := now - timestamp in
  let shown := formatRelativeTime now timestamp in
  (age < 60000 → shown = "just now")
  ∧ (60000 ≤ age < 3600000 →
     ∃ m, 1 ≤ m ≤ 59 ∧ 60000 * m ≤ age < 60000 * (m + 1)
          ∧ shown = pretty m +:+ " min ago")
  ∧ (3600000 ≤ age < 7200000 → shown = "1 hour ago")
  ∧ (7200000 ≤ age < 86400000 →
     ∃ h, 2 ≤ h ≤ 23 ∧ 3600000 * h ≤ age < 3600000 * (h + 1)
          ∧ shown = pretty h +:+ " hours ago")
  ∧ (86400000 ≤ age < 172800000 → shown = "1 day ago")
  ∧ (172800000 ≤ age →
     ∃ d, 2 ≤ d ∧ 86400000 * d ≤ age < 86400000 * (d + 1)
          ∧ shown = pretty d +:+ " days ago").
Proof.
  intros age shown. unfold shown, formatRelativeTime. fold age.
  change (1000 * 60) with 60000.
  pose proof (floor_bounds age 60000 ltac:(lia)) as Hm.
  pose proof (floor_bounds (age / 60000) 60 ltac:(lia)) as Hh.
  pose proof (floor_bounds (age / 60000 / 60) 24 ltac:(lia)) as Hd.
  set (m := age / 60000) in *. set (h := m / 60) in *. set (d := h / 24) in *.
  repeat split; intros Hage.
  - destruct (Z.ltb_spec m 1); [reflexivity|lia].
  - exists m. destruct (Z.ltb_spec m 1); [lia|].
    destruct (Z.ltb_spec m 60); [|lia].
    repeat split; try lia.
  - destruct (Z.ltb_spec m 1); [lia|]. destruct (Z.ltb_spec m 60); [lia|].
    destruct (Z.ltb_spec h 24); [|lia].
    assert (h = 1) as -> by lia. reflexivity.
  - exists h. destruct (Z.ltb_spec m 1); [lia|].
    destruct (Z.ltb_spec m 60); [lia|]. destruct (Z.ltb_spec h 24); [|lia].
    destruct (Z.ltb_spec 1 h); [|lia]. repeat split; try lia.
  - destruct (Z.ltb_spec m 1); [lia|]. destruct (Z.ltb_spec m 60); [lia|].
    destruct (Z.ltb_spec h 24); [lia|].
    assert (d = 1) as -> by lia. reflexivity.
  - exists d. destruct (Z.ltb_spec m 1); [lia|].
    destruct (Z.ltb_spec m 60); [lia|]. destruct (Z.ltb_spec h 24); [lia|].
    destruct (Z.ltb_spec 1 d); [|lia]. repeat split; try lia.
Qed.

Lemma relative_time_by_age_witness :
  formatRelativeTime 5400000 0 = "1 hour ago".
Proof.
  apply (relative_time_by_age 5400000 0). lia.
Defined.

End RelativeTimeProps.

(** ** The fetch wrapper, further *)

Section WrapperProps.

Import Api Waiting Samples.

Context {T : Type}.
Implicit Types (net : Network T) (attempt : nat) (res : Response T).

Lemma finish_ok res v :
  finish res = Ok v → ok res = true ∧ json res = Some v.
Proof.
  unfold finish. destruct (ok res); [|discriminate].
  destruct (json res); [|discriminate]. intros [= ->]. auto.
Qed.

Lemma ok_not_429 res : ok res = true → status res ≠ 429.
Proof.
  unfold ok. intros H%andb_true_iff. destruct H as [_ H%Z.leb_le]. lia.
Qed.

Lemma success_from attempt tellaApiKey net v :
  (attempt ≤ 3)%nat →
  (tellaFetch tellaApiKey net attempt).2 = Ok v →
  ∃ k res,
    (attempt ≤ k ≤ 3)%nat ∧ net k = Resolves res
    ∧ ok res = true ∧ json res = Some v
    ∧ ∀ j, (attempt ≤ j < k)%nat → answers429 net j.
Proof.
  remember (3 - attempt)%nat as n eqn:Hn. revert attempt Hn.
  induction n as [|n IH]; intros attempt Hn Hle; rewrite tellaFetch_step;
    (destruct (getAuthHeaders tellaApiKey); [|discriminate]);
    (destruct (net attempt) as [|res] eqn:Hnet; [discriminate|]);
    (destruct (decide (status res = 429)) as [H429|Hnot];
     [| simpl; intros [Hok Hjson]%finish_ok;
        exists attempt, res; repeat split; auto; lia]);
    (destruct (decide (attempt < 3)%nat);
     [| simpl; intros [Hok%ok_not_429 _]%finish_ok; contradiction]).
  - lia.
  - destruct (tellaFetch tellaApiKey net (S attempt)) as [effects result] eqn:Hrec.
    simpl. intros ->.
    destruct (IH (S attempt) ltac:(lia) ltac:(lia)) as (k & res' & Hk & Hres' & Hok & Hjson & Hbefore).
    { rewrite Hrec. reflexivity. }
    exists k, res'. repeat split; auto; try lia.
    intros j Hj. destruct (decide (j = attempt)) as [->|Hne].
    + exists res. auto.
    + apply Hbefore. lia.
Qed.

(** X8: a call of the wrapper gives a value only from an answer with a
    status from 200 to 299 whose body is read as JSON, reached after
    nothing but 429 answers, at the fourth request at the latest; a 429, an
    error status or a rejected request never gives a value. *)
Theorem success_comes_from_a_2xx tellaApiKey net v :
  (tellaFetch tellaApiKey net 0).2 = Ok v →
  ∃ k res,
    (k ≤ 3)%nat ∧ net k = Resolves res
    ∧ 200 ≤ status res ≤ 299 ∧ json res = Some v
    ∧ ∀ j, (j < k)%nat → answers429 net j.
Proof.
  intros Hrun.
  destruct (success_from 0 tellaApiKey net v ltac:(lia) Hrun)
    as (k & res & Hk & Hres & Hok & Hjson & Hbefore).
  exists k, res. repeat split; auto; try lia.
  - unfold ok in Hok. apply andb_true_iff in Hok as [H%Z.leb_le _]. exact H.
  - unfold ok in Hok. apply andb_true_iff in Hok as [_ H%Z.leb_le]. exact H.
  - intros j Hj. apply Hbefore. lia.
Qed.

Lemma two_pow_attempt attempt :
  (attempt ≤ 3)%nat → 1 ≤ 2 ^ Z.of_nat attempt ≤ 8.
Proof.
  intros H.
  assert (attempt = 0 ∨ attempt = 1 ∨ attempt = 2 ∨ attempt = 3)%nat
    as [-> | [-> | [-> | ->]]] by lia; simpl; lia.
Qed.

Lemma waitMs_backoff net attempt :
  noUsableRetryAfter net attempt →
  waitMs (headerAt net attempt) attempt = 500 * 2 ^ Z.of_nat attempt.
Proof.
  unfold noUsableRetryAfter, waitMs.
  destruct (headerAt net attempt) as [|n|]; simpl; try reflexivity.
  intros ->. reflexivity.
Qed.

Lemma wait_bound_from attempt tellaApiKey net :
  (attempt ≤ 3)%nat →
  (∀ j, (j ≤ 3)%nat → noUsableRetryAfter net j) →
  0 ≤ totalWait (tellaFetch tellaApiKey net attempt).1
    ≤ 8000 - 500 * 2 ^ Z.of_nat attempt.
Proof.
  intros Hle Hhead.
  remember (3 - attempt)%nat as n eqn:Hn. revert attempt Hn Hle.
  induction n as [|n IH]; intros attempt Hn Hle;
    pose proof (two_pow_attempt attempt Hle) as Hpow;
    pose proof (waitMs_backoff net attempt (Hhead attempt Hle)) as Hwait;
    rewrite tellaFetch_step;
    (destruct (getAuthHeaders tellaApiKey); [|simpl; lia]);
    unfold headerAt in Hwait;
    (destruct (net attempt) as [|res]; [simpl; lia|]);
    (destruct (decide (status res = 429)); [|simpl; lia]);
    (destruct (decide (attempt < 3)%nat); [|simpl; lia]).
  - lia.
  - specialize (IH (S attempt) ltac:(lia) ltac:(lia)).
    destruct (tellaFetch tellaApiKey net (S attempt)) as [effects result].
    cbn [fst totalWait] in *.
    rewrite Nat2Z.inj_succ, Z.pow_succ_r in IH by lia. lia.
Qed.

(** X9: when no answer carries a [Retry-After] that the wrapper uses, the
    waits of one call add up to 7.5 seconds at most (500, 1000, 2000 and
    4000 ms). *)
Theorem backoff_is_bounded tellaApiKey net :
  (∀ j, (j ≤ 3)%nat → noUsableRetryAfter net j) →
  0 ≤ totalWait (tellaFetch tellaApiKey net 0).1 ≤ 7500.
Proof.
  intros Hhead.
  pose proof (wait_bound_from 0 tellaApiKey net ltac:(lia) Hhead) as H.
  simpl in H. lia.
Qed.

End WrapperProps.

Lemma success_comes_from_a_2xx_witness :
  ∃ k res,
    (k ≤ 3)%nat ∧ Samples.busyOnce k = Api.Resolves res
    ∧ 200 ≤ Api.status res ≤ 299 ∧ Api.json res = Some tt
    ∧ ∀ j, (j < k)%nat → Api.answers429 Samples.busyOnce j.
Proof.
  apply (success_comes_from_a_2xx "key" Samples.busyOnce tt).
  vm_compute. reflexivity.
Defined.

Lemma backoff_is_bounded_witness :
  0 ≤ Waiting.totalWait (Api.tellaFetch "key" Samples.always429 0).1 ≤ 7500.
Proof.
  apply (backoff_is_bounded "key" Samples.always429).
  intros j _. exact I.
Defined.

(** ** The search over the rows *)

Section SearchProps.

Import SearchTranscripts SearchText Samples MoreSamples.





(** A query with characters of the class. *)
Example escapeRegex_example :
  escapeRegex "a.b (c)" = String.concat ""
    ["a"; String backslash "."; "b "; String backslash "(";
     "c"; String backslash ")"].
Proof. vm_compute. reflexivity. Qed.

Lemma filter_ready_only (f : VideoWithTranscript → bool) rows :
  (∀ item, f item = true → hasReadyTranscript item = true) →
  Forall (λ item, hasReadyTranscript item = true) (List.filter f rows)
  ∧ List.filter f rows `sublist_of` List.filter hasReadyTranscript rows.
Proof.
  intros Hf. induction rows as [|item rows [IHall IHsub]]; simpl.
  - split; constructor.
  - destruct (f item) eqn:E.
    + rewrite (Hf item E). split.
      * constructor; [apply Hf, E | exact IHall].
      * apply sublist_skip, IHsub.
    + split; [exact IHall|].
      destruct (hasReadyTranscript item);
        [apply sublist_cons, IHsub | exact IHsub].
Qed.

(** X11: whatever is searched, every row shown has a transcript with the
    status ready, and the rows shown are, in the same order, among the rows
    shown when nothing is searched, which are all the rows with a ready
    transcript. *)
Theorem search_shows_ready_rows_only (toLowerCase : string → string)
    (rows : list VideoWithTranscript) (searchText : string) :
  Forall (λ item, hasReadyTranscript item = true)
    (filteredVideos toLowerCase rows searchText)
  ∧ filteredVideos toLowerCase rows searchText
    `sublist_of` filteredVideos toLowerCase rows ""
  ∧ filteredVideos toLowerCase rows "" `sublist_of` rows
  ∧ (∀ item, In item rows → hasReadyTranscript item = true →
             In item (filteredVideos toLowerCase rows "")).
Proof.
  assert (Hshown : ∀ f, (∀ item, f item = true → hasReadyTranscript item = true) →
    Forall (λ item, hasReadyTranscript item = true) (List.filter f rows)
    ∧ List.filter f rows `sublist_of` filteredVideos toLowerCase rows "")
    by (intros f Hf; apply filter_ready_only, Hf).
  assert (Hany :
    Forall (λ item, hasReadyTranscript item = true)
      (filteredVideos toLowerCase rows searchText)
    ∧ filteredVideos toLowerCase rows searchText
      `sublist_of` filteredVideos toLowerCase rows "").
  { destruct searchText as [|c rest].
    - apply Hshown. auto.
    - apply Hshown. intros item. unfold hasReadyTranscript.
      destruct (transcript item) as [t|]; [|discriminate].
      destruct (bool_decide (Transcript.status t = ready)); auto. }
  destruct Hany as [Hready Hsub]. split; [exact Hready|]. split; [exact Hsub|].
  split.
  - simpl. clear. induction rows as [|item rows IH]; simpl; [constructor|].
    destruct (hasReadyTranscript item);
      [apply sublist_skip, IH | apply sublist_cons, IH].
  - intros item Hin Hr. simpl. apply List.filter_In. auto.
Qed.

Lemma search_shows_ready_rows_only_witness :
  In readyRow (filteredVideos (λ s, s) [readyRow; emptyRow] "").
Proof.
  apply (search_shows_ready_rows_only (λ s, s) [readyRow; emptyRow] "").
  - left. reflexivity.
  - reflexivity.
Defined.

End SearchProps.

(** ** The details of the grid *)

Section DetailsProps.

Import VideoDetails Samples MoreSamples.

Implicit Types (remote : Remote.t) (videoIds : list string)
  (results : gmap string Video.t).






End DetailsProps.

(** ** The fetch of all the pages *)

Section PagesProps.

Import Pages Samples MoreSamples.

Implicit Types (remote : Remote.t) (p cursor : option string)
  (pages : list (list Video.t)).

(** X13: when the server gives, from the first request on and following the
    cursor of each answer, a run of pages that ends, the fetch of all the
    pages gives, with fuel for each page, the videos of the pages in the
    order of the pages, after those already collected. *)
Theorem all_pages_in_order fuel remote p cursor pages (allVideos : list Video.t) :
  chain remote p cursor pages → (length pages ≤ fuel)%nat →
  Remote.listAllVideos fuel remote p cursor allVideos
  = Some (Ok (allVideos ++ concat pages)).
Proof.
  intros Hchain. revert fuel allVideos.
  induction Hchain as [cursor response Hget Hlast
                      |cursor response pages Hget Hmore Hchain IH];
    intros fuel allVideos Hfuel; simpl in Hfuel;
    (destruct fuel as [|fuel]; [lia|]); simpl.
  - rewrite Hget, Hlast. rewrite app_nil_r. reflexivity.
  - rewrite Hget, Hmore. rewrite IH by lia. rewrite app_assoc. reflexivity.
Qed.

Lemma all_pages_in_order_witness :
  Remote.listAllVideos 2 twoPages None None [] = Some (Ok ([] ++ concat [[v1]; [v2]])).
Proof.
  apply (all_pages_in_order 2 twoPages None None [[v1]; [v2]] []).
  - apply (chain_more twoPages None None
             {| Remote.videos := [v1];
                Remote.pagination := {| Remote.nextCursor := Some "c2";
                                        Remote.hasMore := true |} |} [[v2]]);
      [reflexivity | reflexivity |].
    apply (chain_last twoPages None (Some "c2")
             {| Remote.videos := [v2];
                Remote.pagination := {| Remote.nextCursor := None;
                                        Remote.hasMore := false |} |});
      reflexivity.
  - simpl. lia.
Defined.

(** X14: when the request for a page fails, the fetch of all the pages
    throws the error of that request, with fuel to reach it: the pages
    fetched before it are not returned. *)
Theorem failed_page_fails_the_fetch fuel remote p cursor n message
    (allVideos : list Video.t) :
  brokenChain remote p cursor n message → (n < fuel)%nat →
  Remote.listAllVideos fuel remote p cursor allVideos = Some (Throw message).
Proof.
  intros Hchain. revert fuel allVideos.
  induction Hchain as [cursor message Hget
                      |cursor response n message Hget Hmore Hchain IH];
    intros fuel allVideos Hfuel;
    (destruct fuel as [|fuel]; [lia|]); simpl.
  - rewrite Hget. reflexivity.
  - rewrite Hget, Hmore. apply IH. lia.
Qed.

Lemma failed_page_fails_the_fetch_witness :
  Remote.listAllVideos 2 secondPageFails None None []
  = Some (Throw "500 Internal Server Error: ").
Proof.
  apply (failed_page_fails_the_fetch 2 secondPageFails None None 1).
  - apply (broken_later secondPageFails None None
             {| Remote.videos := [v1];
                Remote.pagination := {| Remote.nextCursor := Some "c2";
                                        Remote.hasMore := true |} |});
      [reflexivity | reflexivity |].
    apply broken_here. reflexivity.
  - lia.
Defined.

End PagesProps.

(** ** The load of the videos, further *)

Section LoadProps.

Import Cache BrowseVideos ManualRefresh Samples MoreSamples.

Implicit Types (remote : Remote.t) (st : State) (store : LocalStorage.t)
  (p : option string) (prefs : PreferenceValues) (cache : VideoCache.t).

(** The state that shows the videos of a cache entry. *)
Lemma loadVideos_local fuel prefs remote p now st store cache :
  getVideoCache p store = Some cache →
  isCacheExpired prefs now cache = false →
  isCacheStale prefs now cache = false →
  loadVideos fuel prefs remote p now st store
  = Some (Ok (setIsLoading false
                (setLastSynced (VideoCache.fetchedAt cache)
                   (setVideos (VideoCache.videos cache) st)), store)).
Proof.
  intros Hhit Hexp Hstale. unfold loadVideos, loadVideos_try.
  rewrite Hhit, Hexp, Hstale. reflexivity.
Qed.

Lemma young_entry_is_current prefs now cache :
  (getCacheDuration prefs = Js.NaN
   ∨ ∃ D, getCacheDuration prefs = Js.Int D ∧ (D = 0 ∨ 5 ≤ D)) →
  getCacheAge now cache < 5 * 60 * 1000 →
  isCacheExpired prefs now cache = false
  ∧ isCacheStale prefs now cache = false.
Proof.
  unfold isCacheExpired, isCacheStale, getCacheAge.
  intros [->|(D & -> & HD)] Hage; simpl.
  - rewrite andb_false_r. auto.
  - destruct (Z.eqb_spec D 0); [auto|]. rewrite threshold_value.
    split.
    + apply Z.leb_gt. lia.
    + apply andb_false_iff. left. apply Z.leb_gt. lia.
Qed.



(** X15: with a cache entry for the partition, in manual-only mode
    (duration 0) whatever the age of the entry, and with a duration of five
    minutes or more, or one that is not a number, while the entry is
    younger than five minutes: the load shows the videos of the entry and
    its [fetchedAt], leaves the storage as it is, and asks nothing of the
    server: its result is the same for every server and with no fuel. *)
Theorem current_cache_is_served_locally fuel prefs remote p now st store cache :
  getVideoCache p store = Some cache →
  (getCacheDuration prefs = Js.Int 0
   ∨ ((getCacheDuration prefs = Js.NaN
       ∨ ∃ D, getCacheDuration prefs = Js.Int D ∧ 5 ≤ D)
      ∧ getCacheAge now cache < 5 * 60 * 1000)) →
  ∃ st',
    loadVideos fuel prefs remote p now st store = Some (Ok (st', store))
    ∧ (∀ remote', loadVideos 0 prefs remote' p now st store
                  = Some (Ok (st', store)))
    ∧ BrowseVideos.videos st' = VideoCache.videos cache
    ∧ lastSynced st' = Some (VideoCache.fetchedAt cache)
    ∧ isLoading st' = false
    ∧ isSyncing st' = isSyncing st
    ∧ usePagination st' = usePagination st.
Proof.
  intros Hhit Hwhen.
  assert (isCacheExpired prefs now cache = false
          ∧ isCacheStale prefs now cache = false) as [Hexp Hstale].
  { destruct Hwhen as [Hmanual|[Hduration Hage]].
    - destruct (manual_mode_unfold prefs now cache Hmanual) as (_ & Hs & He).
      auto.
    - apply young_entry_is_current; [|exact Hage].
      destruct Hduration as [HNaN|(D & HD & Hge)]; [left; exact HNaN|].
      right. exists D. auto. }
  eexists. split; [apply (loadVideos_local _ _ _ _ _ _ _ cache); assumption|].
  split; [intros remote'; apply (loadVideos_local _ _ _ _ _ _ _ cache); assumption|].
  repeat split.
Qed.

Lemma current_cache_is_served_locally_witness :
  ∃ st',
    loadVideos 0 (Preferences (Some "0")) unreachable None 999999999
      initialBrowseState storageWithTwoVideos
    = Some (Ok (st', storageWithTwoVideos))
    ∧ BrowseVideos.videos st' = [v1; v2].
Proof.
  destruct (current_cache_is_served_locally 0 (Preferences (Some "0"))
              unreachable None 999999999 initialBrowseState
              storageWithTwoVideos
              {| VideoCache.videos := [v1; v2]; VideoCache.fetchedAt := 10;
                 VideoCache.playlistId := None |})
    as (st' & Hload & _ & Hvideos & _).
  - reflexivity.
  - left. reflexivity.
  - exists st'. auto.
Defined.

(** X16: with a cache entry that is stale or expired, when the fetch of
    all the pages fails the load still shows the videos of the entry and
    its [fetchedAt], leaves the storage as it is, throws nothing, is no
    longer syncing or loading, and does not enter the fallback mode. *)
Theorem background_failure_is_silent fuel prefs remote p now st store cache
    message :
  getVideoCache p store = Some cache →
  isCacheExpired prefs now cache = true ∨ isCacheStale prefs now cache = true →
  Remote.listAllVideos fuel remote p None [] = Some (Throw message) →
  ∃ st',
    loadVideos fuel prefs remote p now st store = Some (Ok (st', store))
    ∧ BrowseVideos.videos st' = VideoCache.videos cache
    ∧ lastSynced st' = Some (VideoCache.fetchedAt cache)
    ∧ isLoading st' = false
    ∧ isSyncing st' = false
    ∧ usePagination st' = usePagination st.
Proof.
  intros Hhit Hold Hfail. unfold loadVideos, loadVideos_try.
  rewrite Hhit. unfold backgroundRefresh.
  rewrite (refreshAllVideos_throw _ _ _ _ _ _ _ Hfail).
  destruct (isCacheExpired prefs now cache) eqn:Hexp.
  - eexists. split; [reflexivity|]. repeat split.
  - destruct Hold as [Hold|Hold]; [discriminate|]. rewrite Hold.
    eexists. split; [reflexivity|]. repeat split.
Qed.

Lemma background_failure_is_silent_witness :
  ∃ st',
    loadVideos 1 (Preferences None) unreachable None 1800010
      initialBrowseState storageWithTwoVideos
    = Some (Ok (st', storageWithTwoVideos))
    ∧ BrowseVideos.videos st' = [v1; v2]
    ∧ usePagination st' = false.
Proof.
  destruct (background_failure_is_silent 1 (Preferences None) unreachable None
              1800010 initialBrowseState storageWithTwoVideos
              {| VideoCache.videos := [v1; v2]; VideoCache.fetchedAt := 10;
                 VideoCache.playlistId := None |} "fetch failed")
    as (st' & Hload & Hvideos & _ & _ & _ & Hmode).
  - reflexivity.
  - left. reflexivity.
  - reflexivity.
  - exists st'. auto.
Defined.





End LoadProps.

(** ** The load of the transcripts, further *)

Section TranscriptLoadProps.

Import Cache SearchTranscripts LoadStart Samples MoreSamples.

Implicit Types (remote : Remote.t) (st : State) (store : LocalStorage.t)
  (videos : list Video.t).

(** The ids taken as cached by a load: the keys of the cache that are ids
    of videos. *)
Lemma cachedIds_after_prune (videoIds : gset string)
    (transcriptCache : option TranscriptCache.t) :
  newSet (objectKeys (transcripts_or_empty
                        (pruneTranscripts videoIds <$> transcriptCache)))
  = dom (transcripts_or_empty transcriptCache) ∩ videoIds.
Proof.
  rewrite newSet_objectKeys. apply set_eq. intros k.
  rewrite elem_of_intersection, !elem_of_dom.
  destruct transcriptCache as [c|]; simpl.
  - rewrite (pruneEntries_lookup _ (TranscriptCache.transcripts c)) by reflexivity.
    destruct (decide (k ∈ videoIds)); split.
    + intros H. auto.
    + intros [H _]. exact H.
    + intros [x H]. discriminate.
    + intros [_ H]. contradiction.
  - rewrite lookup_empty. split; [intros [x H]; discriminate|].
    intros [[x H] _]. discriminate.
Qed.

Lemma worklist_by_cache videos (existing : gset string) :
  videosToFetch videos (existing ∩ newSet (ids videos))
  = filter (λ v, Video.id v ∉ existing) videos.
Proof.
  unfold videosToFetch. apply filter_agree. intros v Hv.
  rewrite elem_of_intersection.
  assert (Video.id v ∈ newSet (ids videos))
    by (apply elem_of_list_to_set, list_elem_of_fmap_2, Hv).
  split; [intros Hnot Hin; apply Hnot; auto | intros Hnot [Hin _]; auto].
Qed.

(** What the batch fetch gives: a row for every video, and the payload of
    the ready transcripts. *)
Lemma fetchTranscripts_gives fuel remote videos C :
  (1 ≤ C)%nat → (length videos ≤ fuel)%nat →
  ∃ fetched,
    fetchTranscripts fuel remote videos C = Some fetched
    ∧ results fetched = (fetchOne remote <$> videos).*1
    ∧ ∀ k, k ∈ dom (newTranscripts fetched) ↔
           k ∈ ids videos ∧ readyOnServer remote k.
Proof.
  intros HC Hfuel. unfold fetchTranscripts.
  edestruct (fetchTranscripts_loop_ends fuel remote videos C 0) as
    (fetched & Hrun & Hres & Hnew); [exact HC | nia |].
  exists fetched. split; [exact Hrun|].
  rewrite drop_0 in Hres, Hnew. cbn [results newTranscripts] in Hres, Hnew.
  split; [exact Hres|].
  intros k. rewrite Hnew, store_entries_dom, dom_empty, elem_of_empty.
  unfold ids, readyOnServer. rewrite list_elem_of_fmap. split.
  - intros [[]|[c Hc]].
    apply list_elem_of_fmap in Hc as ([r e] & He & Hin). simpl in He. subst e.
    apply list_elem_of_fmap in Hin as (v & Hv & Hin).
    assert (He : (fetchOne remote v).2 = Some (k, c))
      by (rewrite <- Hv; reflexivity).
    apply fetchOne_entry in He as (-> & response & t & Hget & Ht & Hr & _).
    split; [exists v; auto | exists response, t; auto].
  - intros [(v & -> & Hin) (response & t & Hget & Ht & Hr)]. right.
    eexists. apply list_elem_of_fmap. exists (fetchOne remote v).
    split; [|apply list_elem_of_fmap_2, Hin].
    symmetry. apply fetchOne_entry. split; [reflexivity|].
    exists response, t. auto.
Qed.

(** A map built from rows keyed by the id of their video gives, under an
    id, a row of a video with that id. *)
Lemma newMap_rows_key (rows : list VideoWithTranscript) k row :
  newMap ((λ r, (Video.id (video r), r)) <$> rows) !! k = Some row →
  Video.id (video row) = k.
Proof.
  unfold newMap.
  assert (Hgen : ∀ (m : gmap string VideoWithTranscript),
    (∀ k r, m !! k = Some r → Video.id (video r) = k) →
    ∀ k r, foldl (λ m entry, <[entry.1 := entry.2]> m) m
             ((λ r, (Video.id (video r), r)) <$> rows) !! k = Some r →
           Video.id (video r) = k).
  { induction rows as [|r0 rows IH]; intros m Hm k' r; simpl; [apply Hm|].
    apply IH. intros k'' r'' H.
    destruct (decide (k'' = Video.id (video r0))) as [->|Hne].
    - rewrite lookup_insert_eq in H. injection H as <-. reflexivity.
    - rewrite lookup_insert_ne in H by auto. apply Hm, H. }
  apply Hgen. intros k' r H. rewrite lookup_empty in H. discriminate.
Qed.

Lemma resultFromCache_video transcriptCache v :
  video (resultFromCache transcriptCache v) = v.
Proof.
  unfold resultFromCache.
  destruct (transcripts_or_empty transcriptCache !! Video.id v) as [c|];
    [|reflexivity].
  destruct (decide (CachedTranscript.status c = ready)); reflexivity.
Qed.

Lemma merged_rows_ids (fetchedRows : list VideoWithTranscript)
    transcriptCache videos :
  (λ r, Video.id (video r))
    <$> ((λ r, default r (newMap ((λ r, (Video.id (video r), r)) <$> fetchedRows)
                            !! Video.id (video r)))
           <$> (resultFromCache transcriptCache <$> videos))
  = ids videos.
Proof.
  unfold ids. rewrite <- !list_fmap_compose. apply list_fmap_ext.
  intros i v _. simpl. rewrite resultFromCache_video.
  destruct (newMap _ !! Video.id v) as [row|] eqn:E; simpl.
  - apply newMap_rows_key in E. exact E.
  - rewrite resultFromCache_video. reflexivity.
Qed.

(** A load over a cached, non-empty collection, in full. *)
Lemma loadTranscripts_run fuel remote (forceRefresh : bool) now st store cache :
  getVideoCache None store = Some cache →
  VideoCache.videos cache ≠ [] →
  (length (VideoCache.videos cache) ≤ fuel)%nat →
  let videos := VideoCache.videos cache in
  let existing : gset string := persistedIds (startOf forceRefresh store) in
  ∃ st' added,
    loadTranscripts fuel remote forceRefresh now st store
    = Some (st', if (0 <? size added)%nat
                 then addTranscriptsToCache added now (startOf forceRefresh store)
                 else startOf forceRefresh store)
    ∧ (∀ k, k ∈ dom added ↔
            k ∈ ids videos ∧ (k ∉ existing) ∧ readyOnServer remote k)
    ∧ (λ r, Video.id (video r)) <$> videosWithTranscripts st' = ids videos
    ∧ isLoading st' = false
    ∧ error st' = None.
Proof.
  intros Hhit Hnonempty Hfuel videos existing.
  unfold loadTranscripts. rewrite Hhit. fold videos.
  destruct videos as [|v0 vs] eqn:Hvideos; [contradiction|].
  rewrite <- Hvideos. cbv zeta.
  set (transcriptCache :=
         if forceRefresh then None else getTranscriptCache store).
  assert (Hexisting : existing = dom (transcripts_or_empty transcriptCache)).
  { unfold existing, startOf, transcriptCache, persistedIds.
    destruct forceRefresh; [|reflexivity].
    rewrite getTranscriptCache_clear. reflexivity. }
  replace (if forceRefresh then (clearTranscriptCache store, None)
           else (store, getTranscriptCache store))
    with (startOf forceRefresh store, transcriptCache)
    by (unfold startOf, transcriptCache; destruct forceRefresh; reflexivity).
  cbv beta iota.
  rewrite cachedIds_after_prune, worklist_by_cache, <- Hexisting.
  destruct (filter (λ v, Video.id v ∉ existing) videos) as [|w ws] eqn:Hwork.
  - eexists. exists ∅. split; [reflexivity|]. split; [|split; [|split]].
    + intros k. rewrite dom_empty, elem_of_empty. split; [contradiction|].
      intros (Hk & Hnot & _). apply list_elem_of_fmap in Hk as (v & -> & Hv).
      assert (Hin : v ∈ filter (λ v, Video.id v ∉ existing) videos)
        by (apply list_elem_of_filter; auto).
      rewrite Hwork in Hin. apply elem_of_nil in Hin. exact Hin.
    + cbn [videosWithTranscripts]. unfold ids.
      rewrite <- list_fmap_compose. apply list_fmap_ext.
      intros i v _. simpl. rewrite resultFromCache_video. reflexivity.
    + reflexivity.
    + reflexivity.
  - rewrite <- Hwork.
    destruct (fetchTranscripts_gives fuel remote
                (filter (λ v, Video.id v ∉ existing) videos)
                Utils.FETCH_CONCURRENCY)
      as (fetched & Hrun & Hrows & Hdom).
    { unfold Utils.FETCH_CONCURRENCY. lia. }
    { pose proof (length_filter (λ v, Video.id v ∉ existing) videos).
      unfold videos in *. lia. }
    rewrite Hrun. eexists. exists (newTranscripts fetched).
    split; [reflexivity|]. split; [|split; [|split]].
    + intros k. rewrite Hdom. unfold ids. rewrite !list_elem_of_fmap. split.
      * intros [(v & -> & Hv) Hready].
        apply list_elem_of_filter in Hv as [Hnot Hv]. eauto.
      * intros ((v & -> & Hv) & Hnot & Hready). split; [|exact Hready].
        exists v. split; [reflexivity|]. apply list_elem_of_filter. auto.
    + cbn [videosWithTranscripts]. apply merged_rows_ids.
    + reflexivity.
    + reflexivity.
Qed.



(** X19: a load over a cached, non-empty collection, forced or not, ends
    with fuel for every video, with no error, and shows one row for every
    video of the collection, in the order of the collection and under the
    same ids, whatever requests fail. *)
Theorem rows_follow_the_collection fuel remote (forceRefresh : bool) now st
    store cache :
  getVideoCache None store = Some cache →
  VideoCache.videos cache ≠ [] →
  (length (VideoCache.videos cache) ≤ fuel)%nat →
  ∃ st' store',
    loadTranscripts fuel remote forceRefresh now st store = Some (st', store')
    ∧ (λ r, Video.id (video r)) <$> videosWithTranscripts st'
      = ids (VideoCache.videos cache)
    ∧ isLoading st' = false
    ∧ error st' = None.
Proof.
  intros Hhit Hnonempty Hfuel.
  destruct (loadTranscripts_run fuel remote forceRefresh now st store cache
              Hhit Hnonempty Hfuel) as (st' & added & Hrun & _ & Hrows & Hl & He).
  eexists st', _. split; [exact Hrun|]. auto.
Qed.

Lemma rows_follow_the_collection_witness :
  ∃ st' store',
    loadTranscripts 2 catalog false 100 initialSearchState storageWithTwoVideos
    = Some (st', store')
    ∧ (λ r, Video.id (video r)) <$> videosWithTranscripts st' = ["v1"; "v2"].
Proof.
  destruct (rows_follow_the_collection 2 catalog false 100 initialSearchState
              storageWithTwoVideos
              {| VideoCache.videos := [v1; v2]; VideoCache.fetchedAt := 10;
                 VideoCache.playlistId := None |})
    as (st' & store' & Hrun & Hrows & _).
  - reflexivity.
  - discriminate.
  - simpl. lia.
  - exists st', store'. auto.
Defined.







(** X23: when the load has no video to work on, because the video cache is
    absent or empty and the listing of the server fails or is empty, the
    load, forced or not, leaves the storage as it is, so that a forced
    refresh does not clear the transcript cache then; it keeps the rows
    shown, stops loading, and reports the error of a failed listing. *)
Theorem load_without_videos_keeps_the_storage fuel remote
    (forceRefresh : bool) now st store (listing : Result (list Video.t)) :
  (getVideoCache None store = None
   ∨ ∃ cache, getVideoCache None store = Some cache
              ∧ VideoCache.videos cache = []) →
  Remote.listAllVideos fuel remote None None [] = Some listing →
  (listing = Ok [] ∨ ∃ message, listing = Throw message) →
  ∃ st',
    loadTranscripts fuel remote forceRefresh now st store = Some (st', store)
    ∧ videosWithTranscripts st' = videosWithTranscripts st
    ∧ isLoading st' = false
    ∧ error st' = match listing with
                  | Ok _ => None
                  | Throw message => Some message
                  end.
Proof.
  intros Hcache Hlist Hlisting. unfold loadTranscripts.
  assert (Hsource :
    match getVideoCache None store with
    | Some videoCache =>
        match VideoCache.videos videoCache with
        | _ :: _ => Some (Ok (VideoCache.videos videoCache))
        | [] => Remote.listAllVideos fuel remote None None []
        end
    | None => Remote.listAllVideos fuel remote None None []
    end = Some listing).
  { destruct Hcache as [->|(cache & -> & ->)]; exact Hlist. }
  rewrite Hsource.
  destruct Hlisting as [->|(message & ->)];
    (eexists; split; [reflexivity|]); repeat split.
Qed.

Lemma load_without_videos_keeps_the_storage_witness :
  ∃ st',
    loadTranscripts 1 unreachable true 100 initialSearchState corruptStorage
    = Some (st', corruptStorage)
    ∧ error st' = Some "fetch failed".
Proof.
  destruct (load_without_videos_keeps_the_storage 1 unreachable true 100
              initialSearchState corruptStorage (Throw "fetch failed"))
    as (st' & Hrun & _ & _ & Herror).
  - left. reflexivity.
  - reflexivity.
  - right. exists "fetch failed". reflexivity.
  - exists st'. auto.
Defined.

End TranscriptLoadProps.
